(** * A shallow embedding of the wfl file-I/O calculator mixin, the CLI
      option surface and the autoparallelization contract.

    Sources embedded here:
    - [src/wfl/calculators/wfl_fileio_calculator.py]
      (class [WFLFileIOCalculator]: [__init__], [setup_rundir], [clean_rundir]);
    - [src/wfl/cli/cli_options.py] ([num_inputs_per_python_subprocess], and
      in module [CliSurface] all option decorators with their declarations);
    - the chunking / dispatching contract of the autoparallelization layer,
      whose code is not part of the sources at hand and is modelled from the
      specification (module [Autopara]).

    Python objects are attribute dictionaries ([gmap string pyval]), the file
    system is a finite map from canonical absolute paths to nodes, and every
    method is a state transformer that returns either an exception or a
    value, so that the side effects which happened before an exception was
    raised stay visible. *)

From Stdlib Require Import Ascii String.
From Equations Require Import Equations.
From stdpp Require Import gmap strings list sorting.

Local Open Scope string_scope.
Local Open Scope list_scope.
Local Open Scope nat_scope.

(** ** Python values, exceptions and the effect monad *)

(** [pathlib.PurePosixPath]: the anchor ("", "/" or "//") and the parts. *)
Inductive anchor := Rel | Root | Root2.

Record path := mkPath { anchor_of : anchor; parts : list string }.

#[global] Instance anchor_eq_dec : EqDecision anchor.
Proof. solve_decision. Defined.

#[global] Instance path_eq_dec : EqDecision path.
Proof. solve_decision. Defined.

(** The Python values that the mixin stores and receives. *)
Inductive pyval :=
| VNone
| VBool (b : bool)
| VStr (s : string)
| VList (l : list string)
| VPath (p : path).

#[global] Instance pyval_eq_dec : EqDecision pyval.
Proof. solve_decision. Defined.

Inductive exn :=
| ValueError (msg : string)
| AttributeError (attr : string)
| TypeError
| FileNotFoundError
| FileExistsError
| NotADirectoryError
| IsADirectoryError
| OSError (errno : string)
| ShutilError (msg : string).

#[global] Instance exn_eq_dec : EqDecision exn.
Proof. solve_decision. Defined.

(** Nodes of the file system; keys are canonical absolute paths (the list of
    components below the root, without "." and ".."). *)
Inductive node := File | Dir.

#[global] Instance node_eq_dec : EqDecision node.
Proof. solve_decision. Defined.

(** What a run leaves behind that is not in the file system. *)
Inductive event :=
| EvSuperInit (kwargs : gmap string pyval)
| EvWarn (msg : string).

Record state := mkState {
  st_fs : gmap (list string) node;      (* the file system *)
  st_cwd : list string;                 (* os.getcwd(), canonical *)
  st_names : list string;               (* tempfile's future candidate names *)
  st_abspath : bool;                    (* mkdtemp returns an absolute path (Python >= 3.12) *)
  st_self : gmap string pyval;          (* the attributes of the instance *)
  st_log : list event
}.

Definition with_fs (fs : gmap (list string) node) (st : state) : state :=
  mkState fs (st_cwd st) (st_names st) (st_abspath st) (st_self st) (st_log st).

Definition with_names (ns : list string) (st : state) : state :=
  mkState (st_fs st) (st_cwd st) ns (st_abspath st) (st_self st) (st_log st).

Definition with_self (a : gmap string pyval) (st : state) : state :=
  mkState (st_fs st) (st_cwd st) (st_names st) (st_abspath st) a (st_log st).

Definition with_log (l : list event) (st : state) : state :=
  mkState (st_fs st) (st_cwd st) (st_names st) (st_abspath st) (st_self st) l.

Definition result (A : Type) : Type := exn + A.

Definition M (A : Type) : Type := state -> state * result A.

#[global] Instance M_ret : MRet M := fun A (a : A) st => (st, inr a).

#[global] Instance M_bind : MBind M := fun A B (f : A -> M B) (m : M A) st =>
  match m st with
  | (st', inr a) => f a st'
  | (st', inl e) => (st', inl e)
  end.

Definition raise {A : Type} (e : exn) : M A := fun st => (st, inl e).

Definition get_state : M state := fun st => (st, inr st).

Definition set_fs (fs : gmap (list string) node) : M unit := fun st =>
  (with_fs fs st, inr tt).

Definition log_event (ev : event) : M unit := fun st =>
  (with_log (st_log st ++ [ev]) st, inr tt).

(** [try m except e: h e] *)
Definition try_except {A : Type} (m : M A) (h : exn -> M A) : M A := fun st =>
  match m st with
  | (st', inl e) => h e st'
  | r => r
  end.

(** [for x in xs: body x] *)
Fixpoint for_each {A : Type} (xs : list A) (body : A -> M unit) : M unit :=
  match xs with
  | [] => mret tt
  | x :: xs' => _ ← body x; for_each xs' body
  end.

(** Attribute access on [self]: a missing attribute raises [AttributeError]. *)
Definition getattr (name : string) : M pyval := fun st =>
  match st_self st !! name with
  | Some v => (st, inr v)
  | None => (st, inl (AttributeError name))
  end.

Definition setattr (name : string) (v : pyval) : M unit := fun st =>
  (with_self (<[name := v]> (st_self st)) st, inr tt).

(** ** pathlib *)

Module PurePath.

(** [s.split("/")] *)
Fixpoint split_slash (s : string) : list string :=
  match s with
  | EmptyString => [EmptyString]
  | String c s' =>
      if Ascii.eqb c "/"%char then EmptyString :: split_slash s'
      else match split_slash s' with
           | [] => [String c EmptyString]
           | w :: ws => String c w :: ws
           end
  end.

(** Number of leading separators of a string. *)
Fixpoint leading_slashes (s : string) : nat :=
  match s with
  | String c s' => if Ascii.eqb c "/"%char then S (leading_slashes s') else 0
  | EmptyString => 0
  end.

(** [splitroot] of the POSIX flavour: exactly two leading slashes are kept
    apart, any other positive number collapses to one. *)
Definition anchor_of_string (s : string) : anchor :=
  match leading_slashes s with
  | 0 => Rel
  | 2 => Root2
  | _ => Root
  end.

Definition keep_part (c : string) : bool :=
  negb (String.eqb c "" || String.eqb c ".").

(** [Path(s)] for a string. *)
Definition of_string (s : string) : path :=
  mkPath (anchor_of_string s) (List.filter keep_part (split_slash s)).

Definition is_absolute (p : path) : bool :=
  match anchor_of p with Rel => false | _ => true end.

(** [p / q] *)
Definition join (p q : path) : path :=
  if is_absolute q then q else mkPath (anchor_of p) (parts p ++ parts q).

(** [p.parent]: a path without parts is its own parent. *)
Definition parent (p : path) : path := mkPath (anchor_of p) (removelast (parts p)).

(** [p.name] *)
Definition name (p : path) : string := List.last (parts p) "".

Definition anchor_str (a : anchor) : string :=
  match a with Rel => "" | Root => "/" | Root2 => "//" end.

Fixpoint join_parts (ps : list string) : string :=
  match ps with
  | [] => ""
  | [c] => c
  | c :: ps' => c +:+ "/" +:+ join_parts ps'
  end.

(** [str(p)] *)
Definition to_string (p : path) : string :=
  match anchor_of p, parts p with
  | Rel, [] => "."
  | a, ps => anchor_str a +:+ join_parts ps
  end.

End PurePath.

(** [Path(v)]: strings and paths are accepted, anything else is a [TypeError]. *)
Definition path_of_value (v : pyval) : option path :=
  match v with
  | VStr s => Some (PurePath.of_string s)
  | VPath p => Some p
  | _ => None
  end.

Definition Path_of (v : pyval) : M path :=
  match path_of_value v with
  | Some p => mret p
  | None => raise TypeError
  end.

(** [self.attr.method]: the attribute must be a [Path] for [.parent],
    [.name], [.resolve()] and [.is_absolute()] to exist. *)
Definition as_path (v : pyval) : M path :=
  match v with
  | VPath p => mret p
  | _ => raise (AttributeError "Path")
  end.

(** [a / b] where at least one side is a [Path]. *)
Definition truediv (a b : pyval) : M path :=
  match a, b with
  | VPath p, VPath q => mret (PurePath.join p q)
  | VPath p, VStr s => mret (PurePath.join p (PurePath.of_string s))
  | VStr s, VPath q => mret (PurePath.join (PurePath.of_string s) q)
  | _, _ => raise TypeError
  end.

(** The items of [repr(l)] for a list of strings, each between single
    quotes: this is Python's [repr] of a string that holds no quote, no
    backslash and no control character; other strings are not modelled. *)
Fixpoint repr_items (l : list string) : string :=
  match l with
  | [] => ""
  | [s] => "'" +:+ s +:+ "'"
  | s :: l' => "'" +:+ s +:+ "', " +:+ repr_items l'
  end.

(** [str(v)] as used by f-strings. *)
Definition py_str (v : pyval) : string :=
  match v with
  | VNone => "None"
  | VBool true => "True"
  | VBool false => "False"
  | VStr s => s
  | VList l => "[" +:+ repr_items l +:+ "]"
  | VPath p => PurePath.to_string p
  end.

(** [s.replace("/", "", 1)] *)
Fixpoint remove_first_slash (s : string) : string :=
  match s with
  | EmptyString => EmptyString
  | String c s' => if Ascii.eqb c "/"%char then s' else String c (remove_first_slash s')
  end.

(** [s.replace("/", "_")] *)
Fixpoint slashes_to_underscores (s : string) : string :=
  match s with
  | EmptyString => EmptyString
  | String c s' =>
      String (if Ascii.eqb c "/"%char then "_"%char else c) (slashes_to_underscores s')
  end.

(** ** The operating system: a file system without symbolic links,
       permissions or mount points *)

Module FS.

(** Resolution of one component from a directory. *)
Definition step (cur : list string) (c : string) : list string :=
  if String.eqb c ".." then removelast cur else cur ++ [c].

(** Path resolution: every directory that is traversed must exist and be a
    directory; the node that the last component names need not exist. *)
Fixpoint walk (fs : gmap (list string) node) (cur : list string) (comps : list string)
  : result (list string) :=
  match comps with
  | [] => inr cur
  | c :: rest =>
      match fs !! cur with
      | Some Dir => walk fs (step cur c) rest
      | Some File => inl NotADirectoryError
      | None => inl FileNotFoundError
      end
  end.

Definition start_of (cwd : list string) (p : path) : list string :=
  if PurePath.is_absolute p then [] else cwd.

Definition locate (st : state) (p : path) : result (list string) :=
  walk (st_fs st) (start_of (st_cwd st) p) (parts p).

(** [os.stat(p)]: the canonical path and the kind of node found there. *)
Definition stat (st : state) (p : path) : result (list string * node) :=
  match locate st p with
  | inl e => inl e
  | inr a =>
      match st_fs st !! a with
      | Some n => inr (a, n)
      | None => inl FileNotFoundError
      end
  end.

(** [p.is_dir()] and [p.exists()] never raise. *)
Definition is_dir (p : path) : M bool := fun st =>
  (st, inr (match stat st p with inr (_, Dir) => true | _ => false end)).

Definition exists_ (p : path) : M bool := fun st =>
  (st, inr (match stat st p with inr _ => true | _ => false end)).

(** A path names a new entry when it has a last component other than "..". *)
Definition names_entry (p : path) : bool :=
  match parts p with
  | [] => false
  | _ => negb (String.eqb (List.last (parts p) "") "..")
  end.

(** [os.mkdir(p)] *)
Definition os_mkdir (p : path) : M unit := fun st =>
  match locate st p with
  | inl e => (st, inl e)
  | inr a =>
      match st_fs st !! a with
      | Some _ => (st, inl FileExistsError)
      | None =>
          if names_entry p then (with_fs (<[a := Dir]> (st_fs st)) st, inr tt)
          else (st, inl FileNotFoundError)
      end
  end.

(** The exceptions above that are subclasses of Python's [OSError]. *)
Definition is_OSError (e : exn) : bool :=
  match e with
  | FileNotFoundError | FileExistsError | NotADirectoryError
  | IsADirectoryError | OSError _ => true
  | _ => false
  end.

(** The [except OSError] arm of [Path.mkdir]. *)
Definition mkdir_except (p : path) (exist_ok : bool) (e : exn) : M unit :=
  if is_OSError e then
    d ← is_dir p;
    if negb exist_ok || negb d then raise e else mret tt
  else raise e.

(** [p.mkdir(parents=False, exist_ok=exist_ok)] *)
Definition mkdir_leaf (p : path) (exist_ok : bool) : M unit :=
  try_except (os_mkdir p) (fun e =>
    match e with
    | FileNotFoundError => raise e
    | _ => mkdir_except p exist_ok e
    end).

(** [p.mkdir(parents=True, exist_ok=exist_ok)]; the recursion is on the
    number of parts, which the parent has one less of. *)
Fixpoint mkdir_parents (n : nat) (p : path) (exist_ok : bool) : M unit :=
  try_except (os_mkdir p) (fun e =>
    match e with
    | FileNotFoundError =>
        match n with
        | 0 => raise e
        | S n' =>
            if decide (PurePath.parent p = p) then raise e
            else _ ← mkdir_parents n' (PurePath.parent p) true; mkdir_leaf p exist_ok
        end
    | _ => mkdir_except p exist_ok e
    end).

Definition Path_mkdir (p : path) (parents exist_ok : bool) : M unit :=
  if parents then mkdir_parents (length (parts p)) p exist_ok else mkdir_leaf p exist_ok.

(** Lexical normalisation, which is what [os.path.abspath] does and, without
    symbolic links, what [os.path.realpath] does. *)
Definition normalise (cwd : list string) (p : path) : list string :=
  fold_left step (parts p) (start_of cwd p).

(** [os.path.abspath]: two leading slashes are preserved. *)
Definition abspath (p : path) : M path := fun st =>
  (st, inr (mkPath (match anchor_of p with Root2 => Root2 | _ => Root end)
                   (normalise (st_cwd st) p))).

(** [p.resolve()] *)
Definition Path_resolve (p : path) : M path := fun st =>
  (st, inr (mkPath Root (normalise (st_cwd st) p))).

(** [tempfile.TMP_MAX] *)
Definition TMP_MAX : nat := 100 * 100.

(** [next(names)] on tempfile's generator of candidate names. *)
Definition next_name : M (option string) := fun st =>
  match st_names st with
  | [] => (st, inr None)
  | nm :: rest => (with_names rest st, inr (Some nm))
  end.

(** The loop of [tempfile.mkdtemp]: candidate names are drawn until
    [os.mkdir] does not find the name taken; [Path(os.path.join(dir, s))]
    is [dir / s]. A generator that runs dry counts as a failed attempt. *)
Fixpoint mkdtemp_loop (tries : nat) (dir : path) (prefix : string) : M path :=
  match tries with
  | 0 => raise FileExistsError
  | S tries' =>
      o ← next_name;
      match o with
      | None => raise FileExistsError
      | Some nm =>
          let file := PurePath.join dir (PurePath.of_string (prefix +:+ nm)) in
          made ← try_except (_ ← os_mkdir file; mret true)
                    (fun e => match e with
                              | FileExistsError => mret false
                              | _ => raise e
                              end);
          if made : bool then mret file else mkdtemp_loop tries' dir prefix
      end
  end.

(** [tempfile.mkdtemp(dir=dir, prefix=prefix)] *)
Definition mkdtemp (dir : path) (prefix : string) : M path :=
  file ← mkdtemp_loop TMP_MAX dir prefix;
  st ← get_state;
  if st_abspath st then abspath file else mret file.

Fixpoint strip_prefix (a k : list string) : option (list string) :=
  match a, k with
  | [], _ => Some k
  | x :: a', y :: k' => if String.eqb x y then strip_prefix a' k' else None
  | _ :: _, [] => None
  end.

Definition child_of (a k : list string) : option string :=
  match strip_prefix a k with
  | Some [c] => Some c
  | _ => None
  end.

(** The names of the entries of the directory at [a]. *)
Definition children (fs : gmap (list string) node) (a : list string) : list string :=
  omap (fun kv => child_of a kv.1) (map_to_list fs).

Definition child (p : path) (c : string) : path :=
  mkPath (anchor_of p) (parts p ++ [c]).

(** [list(p.iterdir())] *)
Definition Path_iterdir (p : path) : M (list path) := fun st =>
  match stat st p with
  | inl e => (st, inl e)
  | inr (_, File) => (st, inl NotADirectoryError)
  | inr (a, Dir) => (st, inr (map (child p) (children (st_fs st) a)))
  end.

(** [p.glob("*")]: every entry of the directory (pathlib's "*" also matches
    names that start with a dot), read in one scan; nothing when [p] is not
    a directory. *)
Definition Path_glob_star (p : path) : M (list path) := fun st =>
  match stat st p with
  | inr (a, Dir) => (st, inr (map (child p) (children (st_fs st) a)))
  | _ => (st, inr [])
  end.

(** [os.rmdir(p)]: only an empty directory can be removed. *)
Definition os_rmdir (p : path) : M unit := fun st =>
  if negb (names_entry p) then (st, inl (OSError "EINVAL"))
  else match stat st p with
       | inl e => (st, inl e)
       | inr (_, File) => (st, inl NotADirectoryError)
       | inr (a, Dir) =>
           match children (st_fs st) a with
           | [] => (with_fs (delete a (st_fs st)) st, inr tt)
           | _ :: _ => (st, inl (OSError "ENOTEMPTY"))
           end
       end.

Definition rekey (sa da k : list string) : list string :=
  match strip_prefix sa k with
  | Some r => da ++ r
  | None => k
  end.

(** The tree below [sa] becomes the tree below [da]. *)
Definition move_subtree (sa da : list string) (fs : gmap (list string) node)
  : gmap (list string) node :=
  list_to_map (map (fun kv => (rekey sa da kv.1, kv.2)) (map_to_list (delete da fs))).

Definition is_proper_prefix (sa da : list string) : bool :=
  match strip_prefix sa da with
  | Some (_ :: _) => true
  | _ => false
  end.

(** [os.rename(src, dst)] on one device. *)
Definition os_rename (src dst : path) : M unit := fun st =>
  let fs := st_fs st in
  if negb (names_entry src && names_entry dst) then (st, inl (OSError "EBUSY"))
  else match stat st src, locate st dst with
       | inl e, _ => (st, inl e)
       | _, inl e => (st, inl e)
       | inr (sa, sn), inr da =>
           if decide (sa = da) then (st, inr tt)
           else match sn, fs !! da with
                | File, Some Dir => (st, inl IsADirectoryError)
                | File, _ => (with_fs (<[da := File]> (delete sa fs)) st, inr tt)
                | Dir, o =>
                    if is_proper_prefix sa da then (st, inl (OSError "EINVAL"))
                    else match o with
                         | Some File => (st, inl NotADirectoryError)
                         | Some Dir =>
                             match children fs da with
                             | [] => (with_fs (move_subtree sa da fs) st, inr tt)
                             | _ :: _ => (st, inl (OSError "ENOTEMPTY"))
                             end
                         | None => (with_fs (move_subtree sa da fs) st, inr tt)
                         end
                end
       end.

(** [shutil._samefile]: a failing [stat] means "not the same". *)
Definition samefile (src dst : path) : M bool := fun st =>
  (st, inr (match stat st src, stat st dst with
            | inr (a, _), inr (b, _) => bool_decide (a = b)
            | _, _ => false
            end)).

(** [shutil.move(src, dst)]. An existing directory [dst] receives [src]
    under its own name unless that name is taken there. When [os.rename]
    is refused, [shutil.move] retries by copying and deleting; that retry is
    not modelled, and the refusal of the rename is returned as it is (the
    retry can end in another exception, and it creates missing parents of
    the destination of a directory). What is proved below about a move
    covers a rename that succeeds and the refusal that [shutil.move] raises
    itself before it renames. *)
Definition shutil_move (src dst : path) : M path :=
  d ← is_dir dst;
  if d : bool then
    same ← samefile src dst;
    if same : bool then _ ← os_rename src dst; mret dst
    else
      let real_dst := PurePath.join dst (PurePath.of_string (PurePath.name src)) in
      taken ← exists_ real_dst;
      if taken : bool then
        raise (ShutilError ("Destination path '" +:+ PurePath.to_string real_dst
                            +:+ "' already exists"))
      else _ ← os_rename src real_dst; mret real_dst
  else _ ← os_rename src dst; mret dst.

End FS.

(** ** The mixin class [WFLFileIOCalculator] *)

Module WFLFileIOCalculator.

Section Mixin.

(** The constructor of the next class in the method resolution order (the
    wrapped ASE calculator): from the keyword arguments and the attributes
    of the instance to its new attributes, or an exception. *)
Variable super_init :
  gmap string pyval -> gmap string pyval -> result (gmap string pyval).

(** [wfl.calculators.utils.clean_rundir], imported as [utils_clean_rundir]:
    called with the run directory, the keep policy, the default keep list
    and the success flag. *)
Variable utils_clean_rundir : pyval -> pyval -> pyval -> bool -> M unit.

(** The call [super().__init__] with the remaining keyword arguments. *)
Definition call_super_init (kwargs : gmap string pyval) : M unit := fun st =>
  let st1 := with_log (st_log st ++ [EvSuperInit kwargs]) st in
  match super_init kwargs (st_self st) with
  | inl e => (st1, inl e)
  | inr attrs => (with_self attrs st1, inr tt)
  end.

(** [warnings.warn(msg)] under the default filter. *)
Definition warn (msg : string) : M unit := log_event (EvWarn msg).

(** [__init__]: [workdir] and [scratchdir] default to [None]; [kwargs] are
    the remaining keyword arguments. *)
Definition __init__ (keep_files rundir_prefix workdir scratchdir : pyval)
    (kwargs : gmap string pyval) : M pyval :=
  if decide (is_Some (kwargs !! "directory")) then
    raise (ValueError "Cannot pass directory argument")
  else
    _ ← call_super_init kwargs;
    _ ← setattr "_wfl_keep_files" keep_files;
    rp ← Path_of rundir_prefix;
    _ ← setattr "_wfl_rundir_prefix" (VPath rp);
    rp' ← getattr "_wfl_rundir_prefix";
    rp'' ← as_path rp';
    _ ← (if PurePath.is_absolute rp'' then
           w ← getattr "_wfl_workdir";
           if decide (w ≠ VNone) then
             raise (ValueError ("Can not specify workdir " +:+ py_str workdir
                                +:+ " if rundir_prefix " +:+ py_str rundir_prefix
                                +:+ " is an absolute path"))
           else mret tt
         else mret tt);
    wd ← (if decide (workdir ≠ VNone) then Path_of workdir
          else mret (PurePath.of_string "."));
    _ ← setattr "_wfl_workdir" (VPath wd);
    sd ← (if decide (scratchdir ≠ VNone) then p ← Path_of scratchdir; mret (VPath p)
          else mret VNone);
    _ ← setattr "_wfl_scratchdir" sd;
    mret VNone.

(** The name of the scratch mirror of a run directory:
    [str(rundir.resolve()).replace("/", "", 1).replace("/", "_")] *)
Definition mirror_name (resolved : path) : string :=
  slashes_to_underscores (remove_first_slash (PurePath.to_string resolved)).

(** [setup_rundir(self)] *)
Definition setup_rundir : M pyval :=
  (* set rundir to where we want final results to live *)
  wd ← getattr "_wfl_workdir";
  rp ← getattr "_wfl_rundir_prefix";
  rp_path ← as_path rp;
  rundir_path ← truediv wd (VPath (PurePath.parent rp_path));
  _ ← FS.Path_mkdir rundir_path true true;
  rp' ← getattr "_wfl_rundir_prefix";
  rp_path' ← as_path rp';
  tmp ← FS.mkdtemp rundir_path (PurePath.name rp_path');
  _ ← setattr "_cur_rundir" (VPath tmp);
  (* set self.directory to where we want the calculation to actually run *)
  sd ← getattr "_wfl_scratchdir";
  _ ← (if decide (sd ≠ VNone) then
         cur ← getattr "_cur_rundir";
         cur_path ← as_path cur;
         resolved ← FS.Path_resolve cur_path;
         let dir_name := mirror_name resolved in
         sd' ← getattr "_wfl_scratchdir";
         directory ← truediv sd' (VStr dir_name);
         _ ← FS.Path_mkdir directory true true;
         setattr "directory" (VPath directory)
       else
         cur ← getattr "_cur_rundir";
         setattr "directory" cur);
  mret VNone.

(** One turn of the loop of [clean_rundir]:
    [shutil.move(f, self._cur_rundir)] *)
Definition move_back (f : path) : M unit :=
  cur ← getattr "_cur_rundir";
  dst ← Path_of cur;
  _ ← FS.shutil_move f dst;
  mret tt.

(** The last statement of [clean_rundir]: the test on what is left in the
    scratch directory and its two branches. *)
Definition remove_or_warn : M unit :=
  d2 ← getattr "directory";
  p2 ← Path_of d2;
  left ← FS.Path_iterdir p2;
  if decide (left = []) then
    d3 ← getattr "directory";
    warn ("scratchdir " +:+ py_str d3 +:+ " is not empty, not deleting.")
  else
    d4 ← getattr "directory";
    p4 ← Path_of d4;
    _ ← FS.os_rmdir p4;
    setattr "directory" (VStr ".").

(** [clean_rundir(self, _default_keep_files, calculation_succeeded)] *)
Definition clean_rundir (_default_keep_files : pyval) (calculation_succeeded : bool)
  : M pyval :=
  d ← getattr "directory";
  kf ← getattr "_wfl_keep_files";
  _ ← utils_clean_rundir d kf _default_keep_files calculation_succeeded;
  sd ← getattr "_wfl_scratchdir";
  _ ← (if decide (sd ≠ VNone) then
         d1 ← getattr "directory";
         p1 ← Path_of d1;
         fs ← FS.Path_glob_star p1;
         _ ← for_each fs move_back;
         remove_or_warn
       else mret tt);
  mret VNone.

End Mixin.

End WFLFileIOCalculator.

(** ** The keep policy of the teardown *)

Module KeepPolicy.

(** [fnmatch]-style matching of a name against a glob with [*] and [?]. *)
Fixpoint glob_match (pat : list ascii) (s : list ascii) : bool :=
  match pat with
  | [] => match s with [] => true | _ => false end
  | c :: pat' =>
      if Ascii.eqb c "*"%char then
        (fix any_suffix (t : list ascii) : bool :=
           glob_match pat' t
           || match t with [] => false | _ :: t' => any_suffix t' end) s
      else match s with
           | [] => false
           | d :: s' => (Ascii.eqb c "?"%char || Ascii.eqb c d) && glob_match pat' s'
           end
  end.

Definition matches_any (globs : list string) (name : string) : bool :=
  existsb (fun g => glob_match (list_ascii_of_string g) (list_ascii_of_string name)) globs.

(** The four policies of the [keep_files] parameter: [None] stands for
    "keep everything", a list for the globs of the names to keep. *)
Definition globs_to_keep (keep_files default_keep_files : pyval) : option (list string) :=
  match keep_files with
  | VBool true => None
  | VStr s =>
      if String.eqb s "*" then None
      else if String.eqb s "default" then
        Some (match default_keep_files with VList l => l | _ => [] end)
      else Some [s]
  | VList l => Some l
  | VNone | VBool false => Some []
  | VPath _ => Some []
  end.

(** Unlinking the plain files of a directory whose names are in [victims]. *)
Definition unlink_all (a : list string) (victims : list string)
    (fs : gmap (list string) node) : gmap (list string) node :=
  foldr (fun (c : string) (m : gmap (list string) node) =>
           match m !! (a ++ [c])%list with
           | Some File => delete (a ++ [c])%list m
           | _ => m
           end) fs victims.

(** Modelled from the spec: [wfl.calculators.utils.clean_rundir], which the
    mixin imports but whose code is not among the sources. The teardown
    "deletes files not matching the keep policy (policy variants: keep-all,
    keep-none, keep-a-caller-provided-default-set, keep-explicit-glob-list)".
    The spec does not say how the success flag alters the policy, so the
    flag is accepted and the policy applied as it stands. *)
Definition utils_clean_rundir (rundir keep_files default_keep_files : pyval)
    (calculation_succeeded : bool) : M unit :=
  p ← Path_of rundir;
  match globs_to_keep keep_files default_keep_files with
  | None => mret tt
  | Some globs =>
      st ← get_state;
      match FS.stat st p with
      | inr (a, Dir) =>
          let victims :=
            List.filter (fun c => negb (matches_any globs c)) (FS.children (st_fs st) a) in
          set_fs (unlink_all a victims (st_fs st))
      | inr (_, File) => raise NotADirectoryError
      | inl e => raise e
      end
  end.

End KeepPolicy.

(** ** The command-line option surface ([cli_options.py]) *)

Module CliOptions.

Inductive click_type := INT | STRING | PATH.

(** The arguments of one [click.option(...)] call that the module uses. *)
Record click_option := mkOption {
  opt_decls : list string;
  opt_default : option Z;
  opt_show_default : bool;
  opt_type : click_type;
  opt_help : string
}.

(** A command function carries the options its decorators attached. *)
Record command := mkCommand { click_params : list click_option }.

(** [click.option(...)(f)] *)
Definition attach (o : click_option) (f : command) : command :=
  mkCommand (o :: click_params f).

Definition num_inputs_option : click_option :=
  mkOption ["--num-inputs-per-python-subprocess"] (Some 10%Z) true INT
           "Number of configs to be evaluated per each calculator initialization".

(** [num_inputs_per_python_subprocess(f)] *)
Definition num_inputs_per_python_subprocess (f : command) : command :=
  attach num_inputs_option f.

(** The value click hands to the command: the one given on the command line
    or else the default of the option. *)
Definition option_value (o : click_option) (given : option Z) : option Z :=
  match given with
  | Some v => Some v
  | None => opt_default o
  end.

End CliOptions.

(** ** The autoparallelization contract *)

Module Autopara.

Section Engine.

Context {Structure Properties CalculatorSpec : Type}.

(** A chunk: consecutive input items and the global index of the first. *)
Record Chunk := mkChunk { first_index : nat; chunk_items : list Structure }.

(** Modelled from the spec: the Chunker of the autoparallelization layer,
    whose code is not among the sources. "Given an input sequence and a
    target chunk size N, produces a lazy sequence of Chunks, each containing
    up to N consecutive items, tagged with the starting global index"; the
    final chunk may be shorter and an empty input yields no chunk. A chunk
    size of zero, which the configuration invariant excludes, yields no
    chunk. *)
Equations? chunker_from (n : nat) (start : nat) (inputs : list Structure)
  : list Chunk by wf (length inputs) lt :=
  chunker_from 0 _ _ := [];
  chunker_from (S m) _ [] := [];
  chunker_from (S m) start (x :: rest) :=
    mkChunk start (take (S m) (x :: rest))
    :: chunker_from (S m) (start + S m) (drop (S m) (x :: rest)).
Proof. simpl. rewrite length_drop. lia. Qed.

Definition chunker (n : nat) (inputs : list Structure) : list Chunk :=
  chunker_from n 0 inputs.

(** A result record: the structure annotated with the computed properties,
    or the marker of a failure with its description. *)
Inductive ResultRecord :=
| Annotated (s : Structure) (props : Properties)
| Failed (s : Structure) (error : string).

(** The backend calculator built from a spec: properties or an error. *)
Variable backend : CalculatorSpec -> Structure -> string + Properties.

(** Modelled from the spec: the Single-Item Calculator Adapter. A backend
    failure is captured in the record of that item. *)
Definition evaluate (spec : CalculatorSpec) (s : Structure) : ResultRecord :=
  match backend spec s with
  | inr props => Annotated s props
  | inl err => Failed s err
  end.

(** What a worker returns for a chunk: its records, tagged with the
    starting index of the chunk. *)
Record ChunkResult := mkChunkResult { start_index : nat; records : list ResultRecord }.

Definition run_chunk (spec : CalculatorSpec) (c : Chunk) : ChunkResult :=
  mkChunkResult (first_index c) (map (evaluate spec) (chunk_items c)).

Definition starts_le (r1 r2 : ChunkResult) : Prop :=
  (start_index r1 ≤ start_index r2)%nat.

#[global] Instance starts_le_dec r1 r2 : Decision (starts_le r1 r2).
Proof. unfold starts_le. apply _. Defined.

(** Modelled from the spec: step 4 of the Parallel Dispatcher, "reorders
    completed chunk-results by starting index". *)
Definition reorder (completed : list ChunkResult) : list ChunkResult :=
  merge_sort starts_le completed.

Definition emit (ordered : list ChunkResult) : list ResultRecord :=
  concat (map records ordered).

(** Modelled from the spec: step 1 of the Parallel Dispatcher, all chunks
    in-process and in sequence. *)
Definition run_serial (spec : CalculatorSpec) (n : nat) (inputs : list Structure)
  : list ResultRecord :=
  emit (map (run_chunk spec) (chunker n inputs)).

(** Modelled from the spec: steps 2 to 4 of the Parallel Dispatcher. The
    pool hands back the chunk results in the order in which the workers
    finish, given by [completion]; the dispatcher reorders them. *)
Definition run_parallel (completion : list ChunkResult -> list ChunkResult)
    (spec : CalculatorSpec) (n : nat) (inputs : list Structure) : list ResultRecord :=
  emit (reorder (completion (map (run_chunk spec) (chunker n inputs)))).

(** Modelled from the spec: the Generic Runner chooses the serial path for a
    worker count of at most one and the pool otherwise. *)
Definition run (workers : nat) (completion : list ChunkResult -> list ChunkResult)
    (spec : CalculatorSpec) (n : nat) (inputs : list Structure) : list ResultRecord :=
  if decide (workers ≤ 1)%nat then run_serial spec n inputs
  else run_parallel completion spec n inputs.

End Engine.

End Autopara.

(** ** Concrete scenarios *)

Module Scenario.
Import WFLFileIOCalculator.

(** A superclass constructor that accepts any keyword arguments and leaves
    the attributes alone, as [object.__init__] does for an empty dict. *)
Definition plain_init (kwargs attrs : gmap string pyval) : result (gmap string pyval) :=
  inr attrs.


(** A file system with a working tree [/w] and a scratch disk [/scratch];
    the process runs in [/w]. *)
Definition fs0 : gmap (list string) node :=
  list_to_map [([], Dir); (["w"], Dir); (["scratch"], Dir)].

Definition st0 : state := mkState fs0 ["w"] ["aaaa"; "bbbb"] false ∅ [].

(** The instance after [__init__(keep_files=["*.log", "save"],
    rundir_prefix="sub/run_", scratchdir="/scratch")]. *)
Definition st_constructed : state :=
  fst (__init__ plain_init (VList ["*.log"; "save"]) (VStr "sub/run_") VNone
         (VStr "/scratch") ∅ st0).

(** A regular file occupies [/w/sub], so that [/w/sub] cannot be created as
    the parent of the run directory. *)
Definition st_blocked : state :=
  with_fs (<[ ["w"; "sub"] := File ]> fs0) st_constructed.

(** After [setup_rundir], the calculation has written two files and a
    directory into the scratch mirror. *)
Definition st_after_setup : state := fst (setup_rundir st_constructed).

Definition st_calculated : state :=
  with_fs (<[ ["scratch"; "w_sub_run_aaaa"; "out.log"] := File ]>
           (<[ ["scratch"; "w_sub_run_aaaa"; "pw.in"] := File ]>
            (<[ ["scratch"; "w_sub_run_aaaa"; "save"] := Dir ]>
             (<[ ["scratch"; "w_sub_run_aaaa"; "save"; "wfc.dat"] := File ]>
              (st_fs st_after_setup))))) st_after_setup.

(** Structures are numbers; the backend fails on structure 7 and doubles
    every other one. *)
Definition backend (spec : unit) (s : nat) : string + nat :=
  if Nat.eqb s 7 then inl "calculator error" else inr (2 * s)%nat.

Definition inputs : list nat := seq 0 23.

End Scenario.


(** ** Relations between states, used to state the effects of the methods *)

Module Frame.

(** [st'] is [st] with a file system that has only gained entries. *)
Definition extends (st st' : state) : Prop :=
  st_fs st ⊆ st_fs st' /\ st' = with_fs (st_fs st') st.

(** The file system has only gained entries and the working directory is
    the same. *)
Definition grows (st st' : state) : Prop :=
  st_fs st ⊆ st_fs st' /\ st_cwd st' = st_cwd st.

(** What a state keeps when only the file system and the stock of
    candidate names change. *)
Definition same_instance (st st' : state) : Prop :=
  st_abspath st' = st_abspath st /\ st_self st' = st_self st /\
  st_log st' = st_log st.

(** A computation that leaves the attributes of the instance alone. *)
Definition keeps_self {A : Type} (m : M A) : Prop :=
  forall st st' r, m st = (st', r) -> st_self st' = st_self st.

(** Every proper ancestor of an entry is a directory. *)
Definition well_formed (fs : gmap (list string) node) : Prop :=
  map_Forall (fun k _ => Forall (fun j => fs !! take j k = Some Dir) (seq 0 (length k))) fs.

#[global] Instance well_formed_dec (fs : gmap (list string) node) :
  Decision (well_formed fs).
Proof. unfold well_formed. apply _. Defined.

(** No component is "..". *)
Definition plain (comps : list string) : Prop := Forall (fun c => c <> "..") comps.

(** The string contains a separator. *)
Fixpoint has_slash (s : string) : bool :=
  match s with
  | EmptyString => false
  | String c s' => Ascii.eqb c "/"%char || has_slash s'
  end.

End Frame.

(** ** Predicates for the further properties of the methods *)

Module Effects.

(** A computation that logs nothing. *)
Definition keeps_log {A : Type} (m : M A) : Prop :=
  forall st st' r, m st = (st', r) -> st_log st' = st_log st.

(** What [setup_rundir] may do to a state: add entries to the file system
    and assign [_cur_rundir] and [directory] (and draw candidate names). *)
Definition setup_frame (st st' : state) : Prop :=
  st_fs st ⊆ st_fs st' /\
  st_cwd st' = st_cwd st /\
  st_abspath st' = st_abspath st /\
  st_log st' = st_log st /\
  forall name, name <> "_cur_rundir" -> name <> "directory" ->
               st_self st' !! name = st_self st !! name.

(** A computation that stays within [setup_frame], whatever it returns. *)
Definition within_setup_frame {A : Type} (m : M A) : Prop :=
  forall st st' r, m st = (st', r) -> setup_frame st st'.

(** The value that the constructor stores for [workdir]. *)
Definition workdir_stored (workdir : pyval) : option path :=
  if decide (workdir = VNone) then Some (PurePath.of_string ".")
  else path_of_value workdir.

(** The value that the constructor stores for [scratchdir]. *)
Definition scratchdir_stored (scratchdir : pyval) : option pyval :=
  if decide (scratchdir = VNone) then Some VNone
  else match path_of_value scratchdir with
       | Some p => Some (VPath p)
       | None => None
       end.

(** A string that is one component of a path: it has no separator and is
    none of "", "." and "..". *)
Definition component (c : string) : Prop :=
  Frame.has_slash c = false /\ PurePath.keep_part c = true /\ c <> "..".

End Effects.

(** ** Further scenarios *)

Module Scenario2.
Import WFLFileIOCalculator.

(** [object.__init__] as the next constructor: it accepts no keyword
    argument. *)
Definition object_init (kwargs attrs : gmap string pyval) : result (gmap string pyval) :=
  if decide (kwargs = ∅) then inr attrs else inl TypeError.

(** The scratch root [/scratch] is a regular file, so that no mirror can be
    created below it. *)
Definition st_scratch_blocked : state :=
  with_fs (<[ ["scratch"] := File ]> Scenario.fs0) Scenario.st_constructed.

(** The instance of the scenario without a scratch directory. *)
Definition st_constructed_plain : state :=
  fst (__init__ Scenario.plain_init (VList ["*.log"; "save"]) (VStr "sub/run_") VNone
         VNone ∅ Scenario.st0).

(** The parent [/w/sub] of the run directory exists and already holds a
    directory [run_aaaa], the name that the first candidate gives. *)
Definition st_name_taken : state :=
  with_fs (<[ ["w"; "sub"; "run_aaaa"] := Dir ]> (<[ ["w"; "sub"] := Dir ]> Scenario.fs0))
    st_constructed_plain.


(** The state of a finished calculation of the instance without a scratch
    directory: the files were written into the run directory itself. *)
Definition st_calculated_plain : state :=
  let st := fst (setup_rundir st_constructed_plain) in
  with_fs (<[ ["w"; "sub"; "run_aaaa"; "out.log"] := File ]>
           (<[ ["w"; "sub"; "run_aaaa"; "pw.in"] := File ]> (st_fs st))) st.

(** The scenario of a finished calculation for an instance whose working
    directory is given with a ".." in it: [workdir="../w"], seen from [/w]. *)
Definition st_constructed_updir : state :=
  fst (__init__ Scenario.plain_init (VList ["*.log"; "save"]) (VStr "sub/run_")
         (VStr "../w") (VStr "/scratch") ∅ Scenario.st0).

Definition st_calculated_updir : state :=
  let st := fst (setup_rundir st_constructed_updir) in
  with_fs (<[ ["scratch"; "w_sub_run_aaaa"; "out.log"] := File ]>
           (<[ ["scratch"; "w_sub_run_aaaa"; "pw.in"] := File ]>
            (<[ ["scratch"; "w_sub_run_aaaa"; "save"] := Dir ]>
             (<[ ["scratch"; "w_sub_run_aaaa"; "save"; "wfc.dat"] := File ]>
              (st_fs st))))) st.

End Scenario2.

(** ** The file system after entries were moved back *)

Module Moves.

(** What is found at [k] once the entries [names] of the directory at [a]
    have each been moved, with all that lies below them, into the directory
    at [ra]; [fs] is the file system before the moves. *)
Definition moved_back (a ra : list string) (names : list string)
    (fs : gmap (list string) node) (k : list string) : option node :=
  match FS.strip_prefix ra k with
  | Some (c :: r) => if bool_decide (c ∈ names) then fs !! (a ++ c :: r) else fs !! k
  | _ =>
      match FS.strip_prefix a k with
      | Some (c :: _) => if bool_decide (c ∈ names) then None else fs !! k
      | _ => fs !! k
      end
  end.

(** Neither directory lies in or is the other. *)
Definition apart (a ra : list string) : Prop :=
  ~ a `prefix_of` ra /\ ~ ra `prefix_of` a.

(** The places that the resolution of [comps] from [cur] passes through, one
    component after the other, from [cur] to the place it arrives at. *)
Fixpoint visited (cur : list string) (comps : list string) : list (list string) :=
  match comps with
  | [] => [cur]
  | c :: rest => cur :: visited (FS.step cur c) rest
  end.

(** The resolution of the path [p] passes through no place that lies
    properly inside the directory at [a] or properly inside the directory at
    [ra]. A path without ".." that leads to one of two directories which
    are [apart] is of this kind (lemma [plain_clear_of] below). *)
Definition clear_of (a ra : list string) (st : state) (p : path) : Prop :=
  Forall (fun k => FS.is_proper_prefix a k = false /\ FS.is_proper_prefix ra k = false)
         (visited (FS.start_of (st_cwd st) p) (parts p)).

End Moves.

(** ** All option decorators of [cli_options.py] *)

Module CliSurface.

(** The callbacks of the module: [_to_ConfigSet], [_to_OutputSpec] and
    [_parse_extra_info]. *)
Inductive callback_ref := Cb_to_ConfigSet | Cb_to_OutputSpec | Cb_parse_extra_info.

(** One [click.option(...)] call: the declared names and the keyword
    arguments that the module passes somewhere; an argument that a call
    omits has click's default ([False] or [None]). *)
Record option_decl := mkDecl {
  param_decls : list string;
  required : bool;
  multiple : bool;
  callback : option callback_ref;
  default : option Z;
  show_default : bool;
  type : option CliOptions.click_type;
  help : string
}.

#[global] Instance callback_ref_eq_dec : EqDecision callback_ref.
Proof. solve_decision. Defined.

#[global] Instance click_type_eq_dec : EqDecision CliOptions.click_type.
Proof. solve_decision. Defined.

#[global] Instance option_decl_eq_dec : EqDecision option_decl.
Proof. solve_decision. Defined.

(** A command function carries the options its decorators attached
    ([f.__click_params__]). *)
Record command := mkCommand { click_params : list option_decl }.

(** [click.option(...)(f)] *)
Definition attach (o : option_decl) (f : command) : command :=
  mkCommand (o :: click_params f).

(** The double-quote character, which one help text contains. *)
Definition dquote : string := String (Ascii.ascii_of_nat 34) EmptyString.

Definition inputs_option : option_decl :=
  mkDecl ["--inputs"; "-i"] true true (Some Cb_to_ConfigSet) None false None
         "Input xyz file(s) to create ConfigSet from".

(** [inputs(f)] *)
Definition inputs (f : command) : command := attach inputs_option f.

Definition outputs_option : option_decl :=
  mkDecl ["--outputs"; "-o"] true false (Some Cb_to_OutputSpec) None false None
         "Ouput file to create OutputSpec from.".

(** [outputs(f)] *)
Definition outputs (f : command) : command := attach outputs_option f.

Definition extra_info_option : option_decl :=
  mkDecl ["--extra-info"; "-i"] false false (Some Cb_parse_extra_info) None false None
         "Extra key=val pairs to add to Atoms.info".

(** [extra_info(f)] *)
Definition extra_info (f : command) : command := attach extra_info_option f.

Definition param_fname_option : option_decl :=
  mkDecl ["--param-fname"] false false None None false (Some CliOptions.PATH)
         "Path to the potential parameter file".

(** [param_fname(f)] *)
Definition param_fname (f : command) : command := attach param_fname_option f.

Definition prop_prefix_option : option_decl :=
  mkDecl ["--prop-prefix"; "-p"] false false None None false None
         ("Prefix to be pre-pended to all evaluate properties. Defaults to "
          +:+ dquote +:+ "gap_" +:+ dquote +:+ "/" +:+ dquote +:+ "ace_" +:+ dquote
          +:+ "/" +:+ dquote +:+ "mace_" +:+ dquote +:+ " as appropriate").

(** [prop_prefix(f)] *)
Definition prop_prefix (f : command) : command := attach prop_prefix_option f.

Definition num_inputs_per_python_subprocess_option : option_decl :=
  mkDecl ["--num-inputs-per-python-subprocess"] false false None (Some 10%Z) true
         (Some CliOptions.INT)
         "Number of configs to be evaluated per each calculator initialization".

(** [num_inputs_per_python_subprocess(f)] *)
Definition num_inputs_per_python_subprocess (f : command) : command :=
  attach num_inputs_per_python_subprocess_option f.

(** The decorators that the module exports. *)
Inductive decorator :=
  Inputs | Outputs | ExtraInfo | ParamFname | PropPrefix | NumInputsPerPythonSubprocess.

#[global] Instance decorator_eq_dec : EqDecision decorator.
Proof. solve_decision. Defined.

Definition decorate (d : decorator) : command -> command :=
  match d with
  | Inputs => inputs
  | Outputs => outputs
  | ExtraInfo => extra_info
  | ParamFname => param_fname
  | PropPrefix => prop_prefix
  | NumInputsPerPythonSubprocess => num_inputs_per_python_subprocess
  end.

End CliSurface.

(** ** Reasoning about the effect monad *)

Lemma bind_ok {A B : Type} (m : M A) (f : A -> M B) (st st1 : state) (a : A) :
  m st = (st1, inr a) -> (m ≫= f) st = f a st1.
Proof. intros H. unfold mbind, M_bind. rewrite H. reflexivity. Qed.

Lemma bind_err {A B : Type} (m : M A) (f : A -> M B) (st st1 : state) (e : exn) :
  m st = (st1, inl e) -> (m ≫= f) st = (st1, inl e).
Proof. intros H. unfold mbind, M_bind. rewrite H. reflexivity. Qed.

Lemma bind_inv {A B : Type} (m : M A) (f : A -> M B) (st st' : state) (r : result B) :
  (m ≫= f) st = (st', r) ->
  (exists st1 a, m st = (st1, inr a) /\ f a st1 = (st', r))
  \/ (exists e, m st = (st', inl e) /\ r = inl e).
Proof.
  unfold mbind, M_bind. destruct (m st) as [st1 [e|a]]; intros H.
  - right. exists e. by simplify_eq.
  - left. by exists st1, a.
Qed.

Lemma bind_inv_ok {A B : Type} (m : M A) (f : A -> M B) (st st' : state) (b : B) :
  (m ≫= f) st = (st', inr b) ->
  exists st1 a, m st = (st1, inr a) /\ f a st1 = (st', inr b).
Proof.
  intros H. apply bind_inv in H as [H|(e & _ & H)]; [exact H | discriminate].
Qed.

Lemma getattr_ok (name : string) (v : pyval) (st : state) :
  st_self st !! name = Some v -> getattr name st = (st, inr v).
Proof. intros H. unfold getattr. rewrite H. reflexivity. Qed.

Lemma getattr_inv (name : string) (st st' : state) (v : pyval) :
  getattr name st = (st', inr v) -> st' = st /\ st_self st !! name = Some v.
Proof.
  unfold getattr. destruct (st_self st !! name); intros H; by simplify_eq.
Qed.

Lemma Path_of_inv (v : pyval) (st st' : state) (p : path) :
  Path_of v st = (st', inr p) -> st' = st /\ path_of_value v = Some p.
Proof.
  unfold Path_of, mret, M_ret, raise.
  destruct (path_of_value v); intros H; by simplify_eq.
Qed.

Lemma Path_of_ok (v : pyval) (p : path) (st : state) :
  path_of_value v = Some p -> Path_of v st = (st, inr p).
Proof. intros H. unfold Path_of. rewrite H. reflexivity. Qed.

Lemma as_path_inv (v : pyval) (st st' : state) (p : path) :
  as_path v st = (st', inr p) -> st' = st /\ v = VPath p.
Proof.
  unfold as_path, raise, mret, M_ret. destruct v; intros H; by simplify_eq.
Qed.

Module MixinFacts.
Import WFLFileIOCalculator.

Section Constructor.

Variable super_init :
  gmap string pyval -> gmap string pyval -> result (gmap string pyval).

(** C9. A call of the constructor whose keyword arguments contain
    "directory" raises [ValueError] at once: the state is the one before
    the call, so the superclass constructor was not called (nothing was
    logged) and no attribute was set. *)
Theorem init_rejects_directory (keep_files rundir_prefix workdir scratchdir : pyval)
    (kwargs : gmap string pyval) (st : state) :
  is_Some (kwargs !! "directory") ->
  __init__ super_init keep_files rundir_prefix workdir scratchdir kwargs st
  = (st, inl (ValueError "Cannot pass directory argument")).
Proof.
  intros Hdir. unfold __init__. rewrite decide_True by exact Hdir. reflexivity.
Qed.


(** What a constructor call that returns has assigned: the attributes that
    [setup_rundir] and [clean_rundir] read, with paths where they expect
    paths. *)
Lemma init_attributes (keep_files rundir_prefix workdir scratchdir : pyval)
    (kwargs : gmap string pyval) (st st' : state) (v : pyval) :
  __init__ super_init keep_files rundir_prefix workdir scratchdir kwargs st = (st', inr v) ->
  v = VNone /\
  st_self st' !! "_wfl_keep_files" = Some keep_files /\
  (exists rp, path_of_value rundir_prefix = Some rp /\
              st_self st' !! "_wfl_rundir_prefix" = Some (VPath rp)) /\
  (exists wd, st_self st' !! "_wfl_workdir" = Some (VPath wd) /\
              (workdir = VNone -> wd = PurePath.of_string ".") /\
              (workdir <> VNone -> path_of_value workdir = Some wd)) /\
  (scratchdir = VNone -> st_self st' !! "_wfl_scratchdir" = Some VNone) /\
  (scratchdir <> VNone ->
     exists sd, path_of_value scratchdir = Some sd /\
                st_self st' !! "_wfl_scratchdir" = Some (VPath sd)).
Proof.
  unfold __init__. case_decide; [done|]. intros Hrun.
  apply bind_inv_ok in Hrun as (st1 & [] & _ & Hrun).
  apply bind_inv_ok in Hrun as (st2 & [] & Hset2 & Hrun). injection Hset2 as <-.
  apply bind_inv_ok in Hrun as (st3 & rp & Hrp & Hrun).
  apply Path_of_inv in Hrp as [-> Hrp].
  apply bind_inv_ok in Hrun as (st4 & [] & Hset4 & Hrun). injection Hset4 as <-.
  apply bind_inv_ok in Hrun as (st5 & rp' & Hget & Hrun).
  apply getattr_inv in Hget as [-> _].
  apply bind_inv_ok in Hrun as (st6 & rp'' & Has & Hrun).
  apply as_path_inv in Has as [-> _].
  apply bind_inv_ok in Hrun as (st7 & [] & Hcheck & Hrun).
  assert (st7 = with_self (<["_wfl_rundir_prefix" := VPath rp]>
                             (<["_wfl_keep_files" := keep_files]> (st_self st1)))
                          (with_self (<["_wfl_keep_files" := keep_files]> (st_self st1)) st1))
    as ->.
  { destruct (PurePath.is_absolute rp''); [|by injection Hcheck as <-].
    apply bind_inv_ok in Hcheck as (st8 & w & Hw & Hcheck).
    apply getattr_inv in Hw as [-> _].
    unfold raise, mret, M_ret in Hcheck.
    destruct (decide (w ≠ VNone)); by simplify_eq. }
  apply bind_inv_ok in Hrun as (st8 & wd & Hwd & Hrun).
  assert (st8 = with_self (<["_wfl_rundir_prefix" := VPath rp]>
                             (<["_wfl_keep_files" := keep_files]> (st_self st1)))
                          (with_self (<["_wfl_keep_files" := keep_files]> (st_self st1)) st1)
          /\ (workdir = VNone -> wd = PurePath.of_string ".")
          /\ (workdir <> VNone -> path_of_value workdir = Some wd)) as (-> & Hwd1 & Hwd2).
  { destruct (decide (workdir ≠ VNone)) as [Hw|Hw].
    - apply Path_of_inv in Hwd as [-> Hwd]. done.
    - injection Hwd as <- <-. split_and!; [done|done|]. intros Hne. by destruct Hw. }
  apply bind_inv_ok in Hrun as (st9 & [] & Hset9 & Hrun). injection Hset9 as <-.
  apply bind_inv_ok in Hrun as (st10 & sd & Hsd & Hrun).
  apply bind_inv_ok in Hrun as (st11 & [] & Hset11 & Hrun).
  injection Hrun as <- <-.
  assert (st_self st11 !! "_wfl_scratchdir" = Some sd /\
          forall name, name <> "_wfl_scratchdir" ->
            st_self st11 !! name
            = (<["_wfl_workdir" := VPath wd]>
                 (<["_wfl_rundir_prefix" := VPath rp]>
                    (<["_wfl_keep_files" := keep_files]> (st_self st1)))) !! name
          ) as [Hsd11 Hother].
  { assert (st_self st10 = <["_wfl_workdir" := VPath wd]>
                 (<["_wfl_rundir_prefix" := VPath rp]>
                    (<["_wfl_keep_files" := keep_files]> (st_self st1)))) as Hself10.
    { destruct (decide (scratchdir ≠ VNone)).
      - apply bind_inv_ok in Hsd as (st12 & p & Hp & Hsd).
        apply Path_of_inv in Hp as [-> _]. by injection Hsd as <- _.
      - by injection Hsd as <- _. }
    injection Hset11 as <-. cbn. rewrite Hself10. split.
    - by rewrite lookup_insert_eq.
    - intros name Hname. by rewrite lookup_insert_ne. }
  split_and!; try done.
  - rewrite Hother by done. by simplify_map_eq.
  - exists rp. split; [done|]. rewrite Hother by done.
    by simplify_map_eq.
  - exists wd. split_and!; try done. rewrite Hother by done.
    by simplify_map_eq.
  - intros ->. rewrite Hsd11. rewrite decide_False in Hsd by (by intros ?).
    by injection Hsd as _ <-.
  - intros Hne. rewrite decide_True in Hsd by done.
    apply bind_inv_ok in Hsd as (st12 & p & Hp & Hsd).
    apply Path_of_inv in Hp as [-> Hp]. injection Hsd as _ <-. by exists p.
Qed.

End Constructor.

Lemma init_rejects_directory_witness :
  __init__ Scenario.plain_init (VStr "*") (VStr "run_") VNone VNone
    {["directory" := VStr "/tmp"]} Scenario.st0
  = (Scenario.st0, inl (ValueError "Cannot pass directory argument")) /\
  st_log Scenario.st0 = [] /\ st_self Scenario.st0 = ∅.
Proof.
  split; [|done].
  apply (init_rejects_directory Scenario.plain_init).
  rewrite lookup_singleton_eq. by eexists.
Defined.



End MixinFacts.

Module CliFacts.
Import CliOptions.

(** C8. The option that [num_inputs_per_python_subprocess] attaches to a
    command has the fixed default 10, which is what the command receives
    when the option is not given, and this default is at least one. *)
Theorem default_chunk_size_positive (f : command) :
  exists o d,
    click_params (num_inputs_per_python_subprocess f) = o :: click_params f /\
    opt_decls o = ["--num-inputs-per-python-subprocess"] /\
    opt_default o = Some d /\
    option_value o None = Some d /\
    d = 10%Z /\ (1 ≤ d)%Z.
Proof.
  exists num_inputs_option, 10%Z. repeat split; lia.
Qed.

End CliFacts.

(** ** Facts about the file-system model *)

Module FSFacts.
Import FS Frame.


Lemma extends_refl (st : state) : extends st st.
Proof. split; [done|]. by destruct st. Qed.

Lemma extends_trans (st1 st2 st3 : state) :
  extends st1 st2 -> extends st2 st3 -> extends st1 st3.
Proof.
  intros [H1 E1] [H2 E2]. split; [by etrans|].
  rewrite E2 at 1. rewrite E1. reflexivity.
Qed.

Lemma extends_fields (st st' : state) :
  extends st st' ->
  st_cwd st' = st_cwd st /\ st_names st' = st_names st /\
  st_abspath st' = st_abspath st /\ st_self st' = st_self st /\
  st_log st' = st_log st.
Proof. intros [_ ->]. by cbn. Qed.

Lemma extends_insert (st : state) (a : list string) :
  st_fs st !! a = None -> extends st (with_fs (<[a := Dir]> (st_fs st)) st).
Proof. intros H. split; [by apply insert_subseteq|reflexivity]. Qed.

Lemma walk_mono (fs fs' : gmap (list string) node) (comps cur a : list string) :
  fs ⊆ fs' -> walk fs cur comps = inr a -> walk fs' cur comps = inr a.
Proof.
  intros Hsub. revert cur. induction comps as [|c rest IH]; intros cur; cbn; [done|].
  destruct (fs !! cur) as [[|]|] eqn:E; try done.
  rewrite (lookup_weaken _ _ _ _ E Hsub). apply IH.
Qed.


Lemma grows_refl (st : state) : grows st st.
Proof. by split. Qed.

Lemma grows_trans (st1 st2 st3 : state) :
  grows st1 st2 -> grows st2 st3 -> grows st1 st3.
Proof. intros [H1 E1] [H2 E2]. split; [by etrans | congruence]. Qed.

Lemma extends_grows (st st' : state) : extends st st' -> grows st st'.
Proof.
  intros Hext. pose proof (extends_fields _ _ Hext) as (Hcwd & _).
  destruct Hext as [Hsub _]. by split.
Qed.

Lemma stat_mono (st st' : state) (p : path) (a : list string) (n : node) :
  grows st st' -> stat st p = inr (a, n) -> stat st' p = inr (a, n).
Proof.
  intros [Hsub Hcwd]. unfold stat, locate. rewrite Hcwd.
  destruct (walk (st_fs st) _ _) as [e|b] eqn:W; [done|].
  rewrite (walk_mono _ _ _ _ _ Hsub W).
  destruct (st_fs st !! b) as [m|] eqn:E; [|done].
  rewrite (lookup_weaken _ _ _ _ E Hsub). done.
Qed.

Lemma is_dir_true (p : path) (st : state) :
  is_dir p st = (st, inr true) <-> exists a, stat st p = inr (a, Dir).
Proof.
  unfold is_dir. split.
  - intros [= H]. destruct (stat st p) as [e|[a [|]]]; try done. by exists a.
  - intros [a ->]. reflexivity.
Qed.

Lemma is_dir_mono (st st' : state) (p : path) :
  grows st st' -> is_dir p st = (st, inr true) -> is_dir p st' = (st', inr true).
Proof.
  intros Hext. rewrite !is_dir_true. intros [a Ha]. exists a.
  by apply (stat_mono st st').
Qed.

Lemma os_mkdir_err (p : path) (st st' : state) (e : exn) :
  os_mkdir p st = (st', inl e) -> st' = st.
Proof.
  unfold os_mkdir. destruct (locate st p) as [e'|a]; [by intros [= <- _]|].
  destruct (st_fs st !! a); [by intros [= <- _]|].
  destruct (names_entry p); [done | by intros [= <- _]].
Qed.

Lemma os_mkdir_ok (p : path) (st st' : state) (u : unit) :
  os_mkdir p st = (st', inr u) ->
  exists a, locate st p = inr a /\ st_fs st !! a = None /\
            names_entry p = true /\
            st' = with_fs (<[a := Dir]> (st_fs st)) st.
Proof.
  unfold os_mkdir. destruct (locate st p) as [e'|a]; [done|].
  destruct (st_fs st !! a) eqn:E; [done|].
  destruct (names_entry p); [|done]. intros [= <-]. by exists a.
Qed.

Lemma os_mkdir_ok_stat (p : path) (st st' : state) (u : unit) :
  os_mkdir p st = (st', inr u) ->
  extends st st' /\ exists a, stat st' p = inr (a, Dir) /\ st_fs st !! a = None.
Proof.
  intros H. apply os_mkdir_ok in H as (a & Hloc & Hnone & _ & ->).
  split; [by apply extends_insert|]. exists a. split; [|done].
  unfold stat, locate in *. cbn.
  rewrite (walk_mono _ _ _ _ _ (insert_subseteq _ a Dir Hnone) Hloc).
  by rewrite lookup_insert_eq.
Qed.

Lemma mkdir_except_inv (p : path) (eo : bool) (e : exn) (st st' : state) (r : result unit) :
  mkdir_except p eo e st = (st', r) ->
  st' = st /\ (r = inl e \/ (r = inr tt /\ is_dir p st = (st, inr true))).
Proof.
  unfold mkdir_except. destruct (is_OSError e); [|by intros [= <- <-]; auto].
  unfold mbind, M_bind, is_dir.
  destruct (stat st p) as [e'|[a [|]]]; cbn; destruct eo; cbn;
    intros [= <- <-]; auto.
Qed.

Lemma mkdir_leaf_inv (p : path) (eo : bool) (st st' : state) (r : result unit) :
  mkdir_leaf p eo st = (st', r) ->
  extends st st' /\
  match r with
  | inr _ => is_dir p st' = (st', inr true)
  | inl _ => st' = st
  end.
Proof.
  unfold mkdir_leaf, try_except.
  destruct (os_mkdir p st) as [st1 [e|[]]] eqn:Hm.
  - apply os_mkdir_err in Hm as ->.
    assert (mkdir_except p eo e st = (st', r) ->
            extends st st' /\ match r with
                              | inr _ => is_dir p st' = (st', inr true)
                              | inl _ => st' = st
                              end) as Hex.
    { intros H. apply mkdir_except_inv in H as (-> & [->|[-> Hd]]);
        split; auto using extends_refl. }
    destruct e; try exact Hex.
    intros [= <- <-]. split; auto using extends_refl.
  - intros [= <- <-]. apply os_mkdir_ok_stat in Hm as (Hext & a & Hs & _).
    split; [done|]. apply is_dir_true. by exists a.
Qed.

Lemma mkdir_parents_inv (n : nat) (p : path) (eo : bool) (st st' : state)
    (r : result unit) :
  mkdir_parents n p eo st = (st', r) ->
  extends st st' /\ (forall u, r = inr u -> is_dir p st' = (st', inr true)).
Proof.
  revert p eo st st' r. induction n as [|n IH]; intros p eo st st' r; cbn;
    unfold try_except;
    destruct (os_mkdir p st) as [st1 [e|[]]] eqn:Hm.
  all: try (intros [= <- <-]; apply os_mkdir_ok_stat in Hm as (Hext & a & Hs & _);
            split; [done|]; intros _ _; apply is_dir_true; by exists a).
  all: apply os_mkdir_err in Hm as ->.
  all: assert (mkdir_except p eo e st = (st', r) ->
               extends st st' /\ (forall u, r = inr u -> is_dir p st' = (st', inr true)))
         as Hex
         by (intros H; apply mkdir_except_inv in H as (-> & [->|[-> Hd]]);
             split; auto using extends_refl; done).
  all: destruct e; try exact Hex.
  - intros [= <- <-]. split; [apply extends_refl|done].
  - case_decide; [intros [= <- <-]; split; [apply extends_refl|done]|].
    intros Hrun. apply bind_inv in Hrun as [(st1 & [] & H1 & H2)|(e & H1 & ->)].
    + apply IH in H1 as [Hext1 _]. apply mkdir_leaf_inv in H2 as [Hext2 Hr].
      split; [by eapply extends_trans|]. intros u ->. exact Hr.
    + apply IH in H1 as [Hext1 _]. split; [done|]. done.
Qed.

Lemma Path_mkdir_inv (p : path) (parents eo : bool) (st st' : state) (r : result unit) :
  Path_mkdir p parents eo st = (st', r) ->
  extends st st' /\ (forall u, r = inr u -> is_dir p st' = (st', inr true)).
Proof.
  unfold Path_mkdir. destruct parents.
  - apply mkdir_parents_inv.
  - intros H. apply mkdir_leaf_inv in H as [Hext Hr]. split; [done|].
    intros u ->. exact Hr.
Qed.


Lemma mkdtemp_loop_inv (tries : nat) (dir : path) (prefix : string)
    (st st' : state) (file : path) :
  mkdtemp_loop tries dir prefix st = (st', inr file) ->
  exists nm a,
    nm ∈ st_names st /\
    file = PurePath.join dir (PurePath.of_string (prefix +:+ nm)) /\
    stat st' file = inr (a, Dir) /\
    st_fs st !! a = None /\
    st_fs st' = <[a := Dir]> (st_fs st) /\
    grows st st' /\ same_instance st st'.
Proof.
  revert st. induction tries as [|tries IH]; intros st; cbn; [done|].
  unfold mbind at 1, M_bind at 1, next_name.
  destruct (st_names st) as [|nm rest] eqn:Hn; [done|].
  unfold mbind at 1, M_bind at 1, try_except.
  set (file0 := PurePath.join dir (PurePath.of_string (prefix +:+ nm))).
  set (st0 := with_names rest st).
  unfold mbind at 1, M_bind at 1.
  destruct (os_mkdir file0 st0) as [st1 [e|[]]] eqn:Hm.
  - apply os_mkdir_err in Hm as ->.
    destruct e; cbn; try done.
    intros Hrun. apply IH in Hrun as (nm' & a & Hin & -> & Hs & Hnone & Hfs & Hg & Hi).
    exists nm', a. cbn in *. repeat split; try done.
    + set_solver.
    + apply Hg.
    + apply Hg.
    + apply Hi.
    + apply Hi.
    + apply Hi.
  - cbn. intros [= <- <-].
    apply os_mkdir_ok in Hm as (a & Hloc & Hnone & _ & ->).
    exists nm, a. cbn. repeat split; try done.
    + set_solver.
    + unfold stat, locate in *. cbn in *.
      rewrite (walk_mono _ _ _ _ _ (insert_subseteq _ a Dir Hnone) Hloc).
      by rewrite lookup_insert_eq.
    + by apply insert_subseteq.
Qed.

Lemma mkdtemp_inv (dir : path) (prefix : string) (st st' : state) (tmp : path) :
  mkdtemp dir prefix st = (st', inr tmp) ->
  exists nm file a,
    nm ∈ st_names st /\
    file = PurePath.join dir (PurePath.of_string (prefix +:+ nm)) /\
    (tmp = file \/
     tmp = mkPath (match anchor_of file with Root2 => Root2 | _ => Root end)
                  (normalise (st_cwd st) file)) /\
    stat st' file = inr (a, Dir) /\
    st_fs st !! a = None /\
    st_fs st' = <[a := Dir]> (st_fs st) /\
    grows st st' /\ same_instance st st'.
Proof.
  unfold mkdtemp. intros Hrun.
  apply bind_inv_ok in Hrun as (st1 & file & Hloop & Hrun).
  apply mkdtemp_loop_inv in Hloop as (nm & a & Hin & Hf & Hs & Hnone & Hfs & Hg & Hi).
  exists nm, file, a.
  unfold mbind, M_bind, get_state, abspath, mret, M_ret in Hrun.
  destruct (st_abspath st1); injection Hrun as <- <-; split_and!; try done;
    try apply Hi; try apply Hg.
  - right. by rewrite (proj2 Hg).
  - left. reflexivity.
Qed.

End FSFacts.

(** ** A failed [mkdir] with [parents=True] leaves nothing behind *)

Module MkdirFacts.
Import FS Frame FSFacts.



Lemma well_formed_ancestor (fs : gmap (list string) node) (k suffix : list string) (n : node) :
  well_formed fs -> fs !! (k ++ suffix) = Some n -> suffix <> [] -> fs !! k = Some Dir.
Proof.
  intros Hwf Hk Hs. specialize (Hwf _ _ Hk). cbn in Hwf.
  rewrite Forall_forall in Hwf. specialize (Hwf (length k)).
  rewrite take_app_length in Hwf. apply Hwf.
  apply elem_of_seq. rewrite length_app. destruct suffix; [done|]. cbn. lia.
Qed.

Lemma step_plain (cur : list string) (c : string) : c <> ".." -> step cur c = cur ++ [c].
Proof.
  intros Hc. unfold step. destruct (String.eqb_spec c ".."); [done|reflexivity].
Qed.

Lemma walk_plain (fs : gmap (list string) node) (comps cur a : list string) :
  plain comps -> walk fs cur comps = inr a -> a = cur ++ comps.
Proof.
  revert cur. induction comps as [|c rest IH]; intros cur Hp; cbn.
  - intros [= <-]. by rewrite app_nil_r.
  - apply Forall_cons in Hp as [Hc Hrest].
    destruct (fs !! cur) as [[|]|]; try done.
    rewrite step_plain by done. intros H. apply IH in H; [|done].
    by rewrite H, <- app_assoc.
Qed.

Lemma walk_snoc (fs : gmap (list string) node) (comps cur : list string) (c : string) :
  walk fs cur (comps ++ [c])
  = match walk fs cur comps with
    | inl e => inl e
    | inr b =>
        match fs !! b with
        | Some Dir => inr (step b c)
        | Some File => inl NotADirectoryError
        | None => inl FileNotFoundError
        end
    end.
Proof.
  revert cur. induction comps as [|x rest IH]; intros cur; cbn.
  - by destruct (fs !! cur) as [[|]|].
  - destruct (fs !! cur) as [[|]|]; auto.
Qed.

Lemma walk_well_formed (fs : gmap (list string) node) (comps cur : list string) (n : node) :
  well_formed fs -> plain comps -> comps <> [] ->
  fs !! (cur ++ comps) = Some n -> walk fs cur comps = inr (cur ++ comps).
Proof.
  intros Hwf. revert cur. induction comps as [|c rest IH]; intros cur Hp Hne Hk; [done|].
  apply Forall_cons in Hp as [Hc Hrest]. cbn.
  rewrite (well_formed_ancestor fs cur (c :: rest) n Hwf Hk) by done.
  rewrite step_plain by done.
  destruct rest as [|c' rest'].
  - cbn. done.
  - rewrite (IH (cur ++ [c])); try done.
    + by rewrite <- app_assoc.
    + by rewrite <- app_assoc.
Qed.

Lemma parts_snoc (p : path) :
  parts p <> [] -> parts p = parts (PurePath.parent p) ++ [PurePath.name p].
Proof.
  intros Hne. unfold PurePath.parent, PurePath.name. cbn.
  by apply app_removelast_last.
Qed.

Lemma plain_parent (p : path) : plain (parts p) -> plain (parts (PurePath.parent p)).
Proof.
  destruct (decide (parts p = [])) as [E|Hne].
  - unfold PurePath.parent. cbn. by rewrite E.
  - intros Hp. rewrite (parts_snoc p Hne) in Hp. by apply Forall_app in Hp as [? _].
Qed.

Lemma start_of_parent (cwd : list string) (p : path) :
  start_of cwd (PurePath.parent p) = start_of cwd p.
Proof. reflexivity. Qed.

(** Where a [mkdir] may add an entry: at a prefix of the place the (plain)
    path names. *)
Lemma os_mkdir_touches (p : path) (st st' : state) (r : result unit) (k : list string) :
  plain (parts p) -> os_mkdir p st = (st', r) ->
  ~ k `prefix_of` (start_of (st_cwd st) p ++ parts p) ->
  st_fs st' !! k = st_fs st !! k.
Proof.
  intros Hp Hrun Hk. destruct r as [e|[]].
  - by apply os_mkdir_err in Hrun as ->.
  - apply os_mkdir_ok in Hrun as (a & Hloc & _ & _ & ->). cbn.
    apply walk_plain in Hloc; [|done]. subst a.
    apply lookup_insert_ne. intros <-. by apply Hk.
Qed.

Lemma mkdir_leaf_touches (p : path) (eo : bool) (st st' : state) (r : result unit)
    (k : list string) :
  plain (parts p) -> mkdir_leaf p eo st = (st', r) ->
  ~ k `prefix_of` (start_of (st_cwd st) p ++ parts p) ->
  st_fs st' !! k = st_fs st !! k.
Proof.
  intros Hp Hrun Hk. unfold mkdir_leaf, try_except in Hrun.
  destruct (os_mkdir p st) as [st1 [e|[]]] eqn:Hm.
  - apply os_mkdir_err in Hm as ->.
    assert (st' = st) as ->; [|done].
    destruct e; try (by apply mkdir_except_inv in Hrun as [-> _]).
    by injection Hrun as <- _.
  - injection Hrun as <- _. by apply (os_mkdir_touches p st _ (inr ())).
Qed.

Lemma mkdir_parents_touches (n : nat) (p : path) (eo : bool) (st st' : state)
    (r : result unit) (k : list string) :
  plain (parts p) -> mkdir_parents n p eo st = (st', r) ->
  ~ k `prefix_of` (start_of (st_cwd st) p ++ parts p) ->
  st_fs st' !! k = st_fs st !! k.
Proof.
  revert p eo st st' r. induction n as [|n IH]; intros p eo st st' r Hp Hrun Hk;
    cbn in Hrun; unfold try_except in Hrun;
    destruct (os_mkdir p st) as [st1 [e|[]]] eqn:Hm.
  all: try (injection Hrun as <- _; by apply (os_mkdir_touches p st _ (inr ()))).
  all: apply os_mkdir_err in Hm as ->.
  all: destruct e; try (by apply mkdir_except_inv in Hrun as [-> _]).
  - by injection Hrun as <- _.
  - case_decide; [by injection Hrun as <- _|].
    assert (parts p <> []) as Hne.
    { intros E. destruct p as [an ps]. cbn in E. subst ps. by cbn in *. }
    assert (~ k `prefix_of` start_of (st_cwd st) (PurePath.parent p)
                            ++ parts (PurePath.parent p)) as Hk'.
    { intros Hpre. apply Hk. rewrite (parts_snoc p Hne), app_assoc.
      by apply prefix_app_r. }
    apply bind_inv in Hrun as [(st1 & [] & H1 & H2)|(e & H1 & _)].
    + pose proof (mkdir_parents_inv _ _ _ _ _ _ H1) as [Hext _].
      pose proof (extends_fields _ _ Hext) as (Hcwd & _).
      rewrite (mkdir_leaf_touches _ _ _ _ _ k Hp H2) by by rewrite Hcwd.
      by apply (IH _ _ _ _ _ (plain_parent p Hp) H1).
    + by apply (IH _ _ _ _ _ (plain_parent p Hp) H1).
Qed.

(** In a well-formed file system and for a path without "..", a
    [mkdir(parents=True)] that raises has created nothing. *)
Lemma mkdir_parents_fail_unchanged (n : nat) (p : path) (eo : bool) (st st' : state)
    (e : exn) :
  well_formed (st_fs st) -> plain (parts p) ->
  mkdir_parents n p eo st = (st', inl e) -> st' = st.
Proof.
  revert p eo st st' e. induction n as [|n IH]; intros p eo st st' e Hwf Hp Hrun;
    cbn in Hrun; unfold try_except in Hrun;
    destruct (os_mkdir p st) as [st1 [e1|[]]] eqn:Hm; try done.
  all: pose proof (os_mkdir_err _ _ _ _ Hm) as ->.
  all: destruct e1; try (by apply mkdir_except_inv in Hrun as [-> _]).
  - by injection Hrun as <- _.
  - case_decide; [by injection Hrun as <- _|].
    assert (parts p <> []) as Hne.
    { intros E. destruct p as [an ps]. cbn in E. subst ps. by cbn in *. }
    apply bind_inv in Hrun as [(st1 & [] & H1 & H2)|(e1 & H1 & _)];
      [|by apply (IH _ _ _ _ _ Hwf (plain_parent p Hp) H1)].
    exfalso.
    pose proof (mkdir_parents_inv _ _ _ _ _ _ H1) as [Hext Hdir].
    pose proof (extends_fields _ _ Hext) as (Hcwd & _).
    specialize (Hdir () eq_refl). apply is_dir_true in Hdir as [b Hb].
    set (s := start_of (st_cwd st) p) in *.
    set (ps := parts (PurePath.parent p)) in *.
    set (c := PurePath.name p) in *.
    assert (c <> "..") as Hc.
    { pose proof Hp as Hp'. rewrite (parts_snoc p Hne) in Hp'.
      apply Forall_app in Hp' as [_ Hl]. rewrite Forall_singleton in Hl. exact Hl. }
    (* the parent is a directory at [s ++ ps] after the recursive call *)
    unfold stat, locate in Hb. rewrite Hcwd, start_of_parent in Hb. fold s ps in Hb.
    destruct (walk (st_fs st1) s ps) as [?|b'] eqn:Hw; [discriminate Hb|].
    pose proof (walk_plain _ _ _ _ (plain_parent p Hp) Hw) as ->.
    fold ps in Hb, Hw.
    destruct (st_fs st1 !! (s ++ ps)) as [nd|] eqn:Hnode; [|discriminate Hb].
    assert (nd = Dir) as -> by (by injection Hb).
    (* so the leaf is located at [s ++ ps ++ [c]] *)
    assert (locate st1 p = inr (s ++ ps ++ [c])) as Hloc1.
    { unfold locate. rewrite Hcwd. fold s. rewrite (parts_snoc p Hne). fold ps c.
      rewrite walk_snoc, Hw, Hnode, step_plain by done. by rewrite <- app_assoc. }
    (* which was free before the recursive call, and was not touched by it *)
    assert (st_fs st !! (s ++ ps ++ [c]) = None) as Hfree.
    { destruct (st_fs st !! (s ++ ps ++ [c])) as [nd|] eqn:Hk; [|done]. exfalso.
      assert (walk (st_fs st) s (ps ++ [c]) = inr (s ++ ps ++ [c])) as Hwalk.
      { apply (walk_well_formed _ _ _ nd); try done.
        - unfold ps, c. rewrite <- (parts_snoc p Hne). done.
        - by destruct ps. }
      unfold os_mkdir, locate in Hm. fold s in Hm.
      rewrite (parts_snoc p Hne) in Hm. fold ps c in Hm.
      rewrite Hwalk, Hk in Hm. done. }
    assert (st_fs st1 !! (s ++ ps ++ [c]) = None) as Hfree1.
    { rewrite <- Hfree. apply (mkdir_parents_touches _ _ _ _ _ _ _ (plain_parent p Hp) H1).
      rewrite start_of_parent. fold s ps. intros [l Hl].
      apply (f_equal length) in Hl. rewrite !length_app in Hl. cbn in Hl. lia. }
    (* hence [os.mkdir] succeeds on the leaf *)
    unfold mkdir_leaf, try_except, os_mkdir in H2.
    rewrite Hloc1, Hfree1 in H2.
    assert (names_entry p = true) as Hnames.
    { unfold names_entry. destruct (parts p) eqn:E; [done|]. rewrite <- E.
      fold (PurePath.name p). fold c.
      destruct (String.eqb_spec c ".."); done. }
    rewrite Hnames in H2. done.
Qed.

(** The recursion is on the number of parts: any larger bound gives the same
    computation. *)
Lemma mkdir_parents_fuel (n : nat) (p : path) (eo : bool) (st : state) :
  length (parts p) ≤ n ->
  mkdir_parents n p eo st = mkdir_parents (length (parts p)) p eo st.
Proof.
  revert p eo st. induction n as [|n IH]; intros p eo st Hlen.
  - by replace (length (parts p)) with 0 by lia.
  - destruct (parts p) as [|c ps] eqn:E.
    + cbn. unfold try_except. destruct (os_mkdir p st) as [st1 [e|[]]]; [|done].
      destruct e; try done. rewrite decide_True; [done|].
      destruct p as [an ps]. cbn in E. by subst ps.
    + cbn [length]. cbn. unfold try_except.
      destruct (os_mkdir p st) as [st1 [e|[]]]; [|done].
      destruct e; try done. case_decide; [done|].
      assert (length (parts (PurePath.parent p)) = length ps) as Hl.
      { unfold PurePath.parent. cbn. rewrite E.
        assert (c :: ps <> []) as Hne by done.
        pose proof (app_removelast_last "" Hne) as Hsplit.
        apply (f_equal length) in Hsplit. rewrite length_app in Hsplit.
        cbn in Hsplit. cbn. lia. }
      unfold mbind, M_bind. rewrite IH by (cbn in Hlen; lia). by rewrite Hl.
Qed.

End MkdirFacts.

(** ** [setup_rundir] *)

Module SetupFacts.
Import WFLFileIOCalculator FS Frame FSFacts MkdirFacts.

Lemma slashes_to_underscores_clean (s : string) :
  has_slash (slashes_to_underscores s) = false.
Proof.
  induction s as [|c s IH]; [done|]. cbn.
  destruct (Ascii.eqb_spec c "/"%char) as [->|Hc]; cbn; [done|].
  destruct (Ascii.eqb_spec c "/"%char); done.
Qed.

Lemma split_slash_clean (s : string) :
  has_slash s = false -> PurePath.split_slash s = [s].
Proof.
  induction s as [|c s IH]; [done|]. cbn.
  destruct (Ascii.eqb c "/"%char); [done|]. cbn. intros Hs. by rewrite IH.
Qed.

Lemma of_string_clean (s : string) :
  has_slash s = false ->
  PurePath.of_string s = mkPath Rel (if PurePath.keep_part s then [s] else []).
Proof.
  intros Hs. unfold PurePath.of_string, PurePath.anchor_of_string.
  rewrite (split_slash_clean s Hs). cbn.
  replace (PurePath.leading_slashes s) with 0; [done|].
  destruct s as [|c s]; [done|]. cbn in *. by destruct (Ascii.eqb c "/"%char).
Qed.

(** The mirror of a run directory is an entry of the scratch root (or the
    root itself, should the name come out empty or as "."). *)
Lemma mirror_under_scratch (s resolved : path) :
  let directory := PurePath.join s (PurePath.of_string (mirror_name resolved)) in
  directory = child s (mirror_name resolved) \/ directory = s.
Proof.
  unfold mirror_name, child.
  rewrite of_string_clean by apply slashes_to_underscores_clean.
  unfold PurePath.join. cbn.
  destruct (PurePath.keep_part _); cbn; [by left|].
  right. rewrite app_nil_r. by destruct s.
Qed.

Lemma truediv_inv (a b : pyval) (st st' : state) (p : path) :
  truediv a b st = (st', inr p) ->
  st' = st /\ exists pa pb, path_of_value a = Some pa /\ path_of_value b = Some pb /\
                            p = PurePath.join pa pb /\
                            (exists q, a = VPath q \/ b = VPath q).
Proof.
  unfold truediv, raise, mret, M_ret.
  destruct a, b; intros H; simplify_eq; (split; [done|]); cbn; eauto 10.
Qed.

(** C2 (as amended). On an instance as the constructor leaves it, a call of
    [setup_rundir] that raises nothing returns [None] and has these effects:
    [workdir / rundir_prefix.parent] is a directory (parents created as
    needed); below it a directory named [rundir_prefix.name] followed by a
    candidate name of [tempfile] has been created where nothing was before,
    and [_cur_rundir] is its path (or the absolute form of it); nothing that
    existed has been lost; and the effective working path is stored in
    [self.directory]: the run directory without a scratch root, and otherwise
    the mirror [scratchdir / mirror_name], an entry of the scratch root that
    is a directory after the call. *)
Theorem setup_rundir_effect (st st' : state) (v : pyval) (wd rp : path) (sd : pyval) :
  st_self st !! "_wfl_workdir" = Some (VPath wd) ->
  st_self st !! "_wfl_rundir_prefix" = Some (VPath rp) ->
  st_self st !! "_wfl_scratchdir" = Some sd ->
  setup_rundir st = (st', inr v) ->
  let rundir_path := PurePath.join wd (PurePath.parent rp) in
  exists nm file cur a,
    v = VNone /\
    is_dir rundir_path st' = (st', inr true) /\
    nm ∈ st_names st /\
    file = PurePath.join rundir_path (PurePath.of_string (PurePath.name rp +:+ nm)) /\
    stat st' file = inr (a, Dir) /\
    st_fs st !! a = None /\
    (cur = file \/
     cur = mkPath (match anchor_of file with Root2 => Root2 | _ => Root end)
                  (normalise (st_cwd st) file)) /\
    st_self st' !! "_cur_rundir" = Some (VPath cur) /\
    st_fs st ⊆ st_fs st' /\
    match sd with
    | VNone => st_self st' !! "directory" = Some (VPath cur)
    | _ =>
        exists s directory,
          sd = VPath s /\
          directory = PurePath.join s (PurePath.of_string
                        (mirror_name (mkPath Root (normalise (st_cwd st) cur)))) /\
          (directory = child s (mirror_name (mkPath Root (normalise (st_cwd st) cur)))
           \/ directory = s) /\
          st_self st' !! "directory" = Some (VPath directory) /\
          is_dir directory st' = (st', inr true)
    end.
Proof.
  intros Hwd Hrp Hsd Hrun rundir_path. unfold setup_rundir in Hrun.
  rewrite (bind_ok _ _ _ _ _ (getattr_ok _ _ _ Hwd)) in Hrun.
  rewrite (bind_ok _ _ _ _ _ (getattr_ok _ _ _ Hrp)) in Hrun.
  cbn [as_path truediv] in Hrun.
  unfold mbind at 1 2, M_bind at 1 2, mret at 1 2, M_ret at 1 2 in Hrun.
  fold rundir_path in Hrun.
  apply bind_inv_ok in Hrun as (st1 & [] & Hmk & Hrun).
  apply Path_mkdir_inv in Hmk as [Hext1 Hdir1]. specialize (Hdir1 tt eq_refl).
  pose proof (extends_fields _ _ Hext1) as (Hcwd1 & Hnm1 & Habs1 & Hself1 & Hlog1).
  rewrite (bind_ok _ _ _ st1 _ (getattr_ok _ (VPath rp) _ ltac:(by rewrite Hself1))) in Hrun.
  cbn [as_path] in Hrun.
  unfold mbind at 1, M_bind at 1, mret at 1, M_ret at 1 in Hrun.
  apply bind_inv_ok in Hrun as (st2 & tmp & Htmp & Hrun).
  apply mkdtemp_inv in Htmp
    as (nm & file & a & Hin & Hfile & Hcur & Hstat & Hnone & Hfs2 & Hg2 & Hi2).
  destruct Hi2 as (Habs2 & Hself2 & Hlog2).
  unfold mbind at 1, M_bind at 1, setattr at 1 in Hrun.
  set (st3 := with_self (<["_cur_rundir" := VPath tmp]> (st_self st2)) st2) in Hrun.
  assert (st_self st3 !! "_wfl_scratchdir" = Some sd) as Hsd3.
  { cbn. rewrite lookup_insert_ne by done. by rewrite Hself2, Hself1. }
  assert (st_self st3 !! "_cur_rundir" = Some (VPath tmp)) as Hcur3.
  { cbn. by rewrite lookup_insert_eq. }
  assert (grows st st3) as Hg3.
  { apply (grows_trans _ st1); [by apply extends_grows|].
    apply (grows_trans _ st2); [done|]. by split. }
  assert (grows st1 st3) as Hg13.
  { apply (grows_trans _ st2); [done|]. by split. }
  assert (stat st3 file = inr (a, Dir)) as Hstat3.
  { apply (stat_mono st2); [by split|done]. }
  assert (st_fs st !! a = None) as Hnone0.
  { destruct Hext1 as [Hsub _]. destruct (st_fs st !! a) eqn:E; [|done].
    by rewrite (lookup_weaken _ _ _ _ E Hsub) in Hnone. }
  rewrite (bind_ok _ _ _ _ _ (getattr_ok _ _ _ Hsd3)) in Hrun.
  apply bind_inv_ok in Hrun as (st4 & [] & Hbranch & Hret).
  injection Hret as <- <-.
  exists nm, file, tmp, a.
  rewrite Hnm1 in Hin. rewrite Hcwd1 in Hcur.
  destruct (decide (sd ≠ VNone)) as [Hne|He].
  - rewrite (bind_ok _ _ _ _ _ (getattr_ok _ _ _ Hcur3)) in Hbranch.
    cbn [as_path] in Hbranch.
    unfold mbind at 1 2, M_bind at 1 2, mret at 1, M_ret at 1, Path_resolve in Hbranch.
    rewrite (bind_ok _ _ _ _ _ (getattr_ok _ _ _ Hsd3)) in Hbranch.
    apply bind_inv_ok in Hbranch as (st5 & directory & Hdiv & Hbranch).
    apply truediv_inv in Hdiv as (-> & ps & pb & Hps & Hpb & Hdirectory & q & Hq).
    assert (sd = VPath ps) as ->.
    { destruct Hq as [->|[=]]. cbn in Hps. congruence. }
    cbn in Hpb. injection Hpb as <-.
    apply bind_inv_ok in Hbranch as (st6 & [] & Hmk2 & Hset).
    apply Path_mkdir_inv in Hmk2 as [Hext6 Hdir6]. specialize (Hdir6 tt eq_refl).
    pose proof (extends_fields _ _ Hext6) as (Hcwd6 & Hnm6 & Habs6 & Hself6 & Hlog6).
    unfold setattr in Hset. injection Hset as <-.
    assert (grows st3 st6) as Hg36 by by apply extends_grows.
    set (st7 := with_self _ st6).
    assert (grows st6 st7) as Hg67 by by split.
    split_and!; try done.
    + apply (is_dir_mono st1); [|done].
      apply (grows_trans _ st3); [done|]. by apply (grows_trans _ st6).
    + apply (stat_mono st3); [|done]. by apply (grows_trans _ st6).
    + cbn. rewrite lookup_insert_ne by done. rewrite Hself6. done.
    + apply (grows_trans _ st3 _ Hg3). by apply (grows_trans _ st6).
    + assert (directory = PurePath.join ps (PurePath.of_string
                (mirror_name (mkPath Root (normalise (st_cwd st) tmp))))) as Hdir_eq.
      { rewrite Hdirectory. do 3 f_equal. cbn. by rewrite (proj2 Hg2), Hcwd1. }
      exists ps, directory. split_and!; try done.
      * rewrite Hdir_eq. apply mirror_under_scratch.
      * cbn. by rewrite lookup_insert_eq.
      * by apply (is_dir_mono st6).
  - assert (sd = VNone) as -> by (by destruct (decide (sd = VNone)); [|contradict He]).
    rewrite (bind_ok _ _ _ _ _ (getattr_ok _ _ _ Hcur3)) in Hbranch.
    unfold setattr in Hbranch. injection Hbranch as <-.
    set (st7 := with_self _ st3).
    assert (grows st3 st7) as Hg37 by by split.
    split_and!; try done.
    + apply (is_dir_mono st1); [|done]. by apply (grows_trans _ st3).
    + cbn. rewrite lookup_insert_ne by done. by rewrite lookup_insert_eq.
    + apply Hg3.
    + cbn. by rewrite lookup_insert_eq.
Qed.

(** The method adds no failure of its own: on an instance as the
    constructor leaves it, when [mkdir], [mkdtemp] and, with a scratch root,
    the [mkdir] of the mirror go through, the call returns [None] in the
    state they leave, with the two attributes assigned. *)
Lemma setup_rundir_completes (st st1 st2 : state) (wd rp tmp : path) (sd : pyval) :
  st_self st !! "_wfl_workdir" = Some (VPath wd) ->
  st_self st !! "_wfl_rundir_prefix" = Some (VPath rp) ->
  st_self st !! "_wfl_scratchdir" = Some sd ->
  Path_mkdir (PurePath.join wd (PurePath.parent rp)) true true st = (st1, inr ()) ->
  mkdtemp (PurePath.join wd (PurePath.parent rp)) (PurePath.name rp) st1 = (st2, inr tmp) ->
  let st3 := with_self (<["_cur_rundir" := VPath tmp]> (st_self st2)) st2 in
  match sd with
  | VNone =>
      setup_rundir st
      = (with_self (<["directory" := VPath tmp]> (st_self st3)) st3, inr VNone)
  | VPath s =>
      let directory :=
        PurePath.join s (PurePath.of_string
                           (mirror_name (mkPath Root (normalise (st_cwd st3) tmp)))) in
      forall st4,
        Path_mkdir directory true true st3 = (st4, inr ()) ->
        setup_rundir st
        = (with_self (<["directory" := VPath directory]> (st_self st4)) st4, inr VNone)
  | _ => True
  end.
Proof.
  intros Hwd Hrp Hsd Hmk Htmp st3.
  pose proof (Path_mkdir_inv _ _ _ _ _ _ Hmk) as [Hext1 _].
  pose proof (extends_fields _ _ Hext1) as (_ & _ & _ & Hself1 & _).
  pose proof (mkdtemp_inv _ _ _ _ _ Htmp)
    as (_ & _ & _ & _ & _ & _ & _ & _ & _ & _ & _ & Hself2 & _).
  assert (st_self st3 !! "_wfl_scratchdir" = Some sd) as Hsd3.
  { cbn. rewrite lookup_insert_ne by done. by rewrite Hself2, Hself1. }
  assert (st_self st3 !! "_cur_rundir" = Some (VPath tmp)) as Hcur3.
  { cbn. by rewrite lookup_insert_eq. }
  assert (forall rest : M pyval,
            (wd0 ← getattr "_wfl_workdir";
             rp0 ← getattr "_wfl_rundir_prefix";
             rp_path ← as_path rp0;
             rundir_path ← truediv wd0 (VPath (PurePath.parent rp_path));
             _ ← Path_mkdir rundir_path true true;
             rp' ← getattr "_wfl_rundir_prefix";
             rp_path' ← as_path rp';
             tmp0 ← mkdtemp rundir_path (PurePath.name rp_path');
             _ ← setattr "_cur_rundir" (VPath tmp0);
             rest) st = rest st3) as Hprefix.
  { intros rest.
    rewrite (bind_ok _ _ _ _ _ (getattr_ok _ _ _ Hwd)).
    rewrite (bind_ok _ _ _ _ _ (getattr_ok _ _ _ Hrp)).
    cbn [as_path truediv].
    unfold mbind at 1 2, M_bind at 1 2, mret at 1 2, M_ret at 1 2.
    rewrite (bind_ok _ _ _ _ _ Hmk).
    rewrite (bind_ok _ _ _ st1 _ (getattr_ok _ (VPath rp) _ ltac:(by rewrite Hself1))).
    cbn [as_path]. unfold mbind at 1, M_bind at 1, mret at 1, M_ret at 1.
    rewrite (bind_ok _ _ _ _ _ Htmp). reflexivity. }
  unfold setup_rundir. rewrite Hprefix.
  rewrite (bind_ok _ _ _ _ _ (getattr_ok _ _ _ Hsd3)).
  destruct sd as [| | | |s]; try done.
  - rewrite decide_False by (by intros ?).
    unfold mbind at 1, M_bind at 1.
    rewrite (bind_ok _ _ _ _ _ (getattr_ok _ _ _ Hcur3)). reflexivity.
  - intros st4 Hmk2. rewrite decide_True by done.
    unfold mbind at 1, M_bind at 1.
    rewrite (bind_ok _ _ _ _ _ (getattr_ok _ _ _ Hcur3)).
    cbn [as_path].
    unfold mbind at 1 2, M_bind at 1 2, mret at 1, M_ret at 1, Path_resolve.
    rewrite (bind_ok _ _ _ _ _ (getattr_ok _ _ _ Hsd3)).
    cbn [truediv]. unfold mbind at 1, M_bind at 1, mret at 1, M_ret at 1.
    rewrite (bind_ok _ _ _ _ _ Hmk2). reflexivity.
Qed.

(** The scenario with a scratch root: the call returns [None], and the
    effective working path is found in [self.directory]. *)
Lemma setup_rundir_effect_witness :
  exists st' cur directory,
    setup_rundir Scenario.st_constructed = (st', inr VNone) /\
    st_self st' !! "_cur_rundir" = Some (VPath cur) /\
    st_self st' !! "directory" = Some (VPath directory) /\
    is_dir directory st' = (st', inr true).
Proof.
  exists (fst (setup_rundir Scenario.st_constructed)).
  destruct (setup_rundir_effect Scenario.st_constructed
              (fst (setup_rundir Scenario.st_constructed)) VNone
              (PurePath.of_string ".") (PurePath.of_string "sub/run_")
              (VPath (PurePath.of_string "/scratch")))
    as (nm & file & cur & a & _ & _ & _ & _ & _ & _ & _ & Hcur & _ & Hdir);
    [vm_compute; reflexivity ..|].
  destruct Hdir as (s & directory & _ & _ & _ & Hattr & Hisdir).
  exists cur, directory. split; [vm_compute; reflexivity|]. by split_and!.
Defined.

(** C2, as stated, fails: the call hands back [None], not the effective
    working path, which is only stored in [self.directory]. *)
Lemma setup_rundir_returns_none :
  exists st' directory,
    setup_rundir Scenario.st_constructed = (st', inr VNone) /\
    st_self st' !! "directory" = Some (VPath directory) /\
    VNone <> VPath directory.
Proof.
  exists (fst (setup_rundir Scenario.st_constructed)),
         (mkPath Root ["scratch"; "w_sub_run_aaaa"]).
  split_and!; [vm_compute; reflexivity | vm_compute; reflexivity | discriminate].
Qed.

(** C7. When [workdir / rundir_prefix.parent] cannot be created, the
    exception of [mkdir] is the exception of [setup_rundir], raised in the
    state that the failed [mkdir] left: no run directory was drawn or
    created ([tempfile]'s names are untouched), no scratch mirror was made,
    and no attribute of the instance was set. In a well-formed file system
    and for a path without ".." the failed [mkdir] has created nothing
    either, so the state is the one before the call; in general the file
    system has at most gained directories on the way to the one that
    failed. *)
Theorem setup_rundir_mkdir_failure (st st1 : state) (e : exn) (wd rp : path) :
  st_self st !! "_wfl_workdir" = Some (VPath wd) ->
  st_self st !! "_wfl_rundir_prefix" = Some (VPath rp) ->
  Path_mkdir (PurePath.join wd (PurePath.parent rp)) true true st = (st1, inl e) ->
  setup_rundir st = (st1, inl e) /\
  st_self st1 = st_self st /\
  st_self st1 !! "_cur_rundir" = st_self st !! "_cur_rundir" /\
  st_self st1 !! "directory" = st_self st !! "directory" /\
  st_names st1 = st_names st /\
  st_log st1 = st_log st /\
  st_fs st ⊆ st_fs st1 /\
  (well_formed (st_fs st) ->
   plain (parts (PurePath.join wd (PurePath.parent rp))) -> st1 = st).
Proof.
  intros Hwd Hrp Hmk.
  pose proof (Path_mkdir_inv _ _ _ _ _ _ Hmk) as [Hext _].
  pose proof (extends_fields _ _ Hext) as (_ & Hnm & _ & Hself & Hlog).
  split_and!; try done; try (by rewrite Hself).
  - unfold setup_rundir.
    rewrite (bind_ok _ _ _ _ _ (getattr_ok _ _ _ Hwd)).
    rewrite (bind_ok _ _ _ _ _ (getattr_ok _ _ _ Hrp)).
    cbn [as_path truediv].
    unfold mbind at 1 2, M_bind at 1 2, mret at 1 2, M_ret at 1 2.
    by rewrite (bind_err _ _ _ _ _ Hmk).
  - apply Hext.
  - intros Hwf Hplain. by apply (mkdir_parents_fail_unchanged _ _ _ _ _ _ Hwf Hplain Hmk).
Qed.

Lemma well_formed_blocked : well_formed (st_fs Scenario.st_blocked).
Proof. apply (bool_decide_unpack _). by vm_compute. Qed.

(** A regular file where the parent of the run directory should be. *)
Lemma setup_rundir_mkdir_failure_witness :
  setup_rundir Scenario.st_blocked = (Scenario.st_blocked, inl FileExistsError) /\
  st_self Scenario.st_blocked !! "_cur_rundir" = None /\
  st_self Scenario.st_blocked !! "directory" = None.
Proof.
  destruct (setup_rundir_mkdir_failure Scenario.st_blocked
              (fst (setup_rundir Scenario.st_blocked))
              FileExistsError (PurePath.of_string ".") (PurePath.of_string "sub/run_"))
    as (Hrun & _ & _ & _ & _ & _ & _ & Hsame); [vm_compute; reflexivity ..|].
  rewrite <- Hsame at 2.
  - split_and!; [exact Hrun | vm_compute; reflexivity | vm_compute; reflexivity].
  - exact well_formed_blocked.
  - repeat constructor; discriminate.
Defined.

End SetupFacts.

(** ** [clean_rundir] *)

Module CleanFacts.
Import WFLFileIOCalculator FS Frame FSFacts.


Lemma keeps_self_bind {A B : Type} (m : M A) (f : A -> M B) :
  keeps_self m -> (forall a, keeps_self (f a)) -> keeps_self (m ≫= f).
Proof.
  intros Hm Hf st st' r Hrun.
  apply bind_inv in Hrun as [(st1 & a & H1 & H2)|(e & H1 & _)].
  - rewrite (Hf a _ _ _ H2). by apply (Hm _ _ _ H1).
  - by apply (Hm _ _ _ H1).
Qed.

Lemma keeps_self_ret {A : Type} (a : A) : keeps_self (mret a).
Proof. by intros st st' r [= <- _]. Qed.

Lemma keeps_self_raise {A : Type} (e : exn) : keeps_self (@raise A e).
Proof. by intros st st' r [= <- _]. Qed.

Lemma keeps_self_getattr (name : string) : keeps_self (getattr name).
Proof.
  intros st st' r. unfold getattr. by destruct (st_self st !! name); intros [= <- _].
Qed.

Lemma keeps_self_Path_of (v : pyval) : keeps_self (Path_of v).
Proof.
  unfold Path_of. destruct (path_of_value v);
    [apply keeps_self_ret | apply keeps_self_raise].
Qed.

Lemma keeps_self_is_dir (p : path) : keeps_self (is_dir p).
Proof. by intros st st' r [= <- _]. Qed.

Lemma keeps_self_exists (p : path) : keeps_self (exists_ p).
Proof. by intros st st' r [= <- _]. Qed.

Lemma keeps_self_samefile (p q : path) : keeps_self (samefile p q).
Proof. by intros st st' r [= <- _]. Qed.

Lemma keeps_self_os_rename (src dst : path) : keeps_self (os_rename src dst).
Proof.
  intros st st' r. unfold os_rename.
  repeat (case_match; try (by intros [= <- _])).
Qed.

Lemma keeps_self_shutil_move (src dst : path) : keeps_self (shutil_move src dst).
Proof.
  unfold shutil_move.
  apply keeps_self_bind; [apply keeps_self_is_dir|]. intros [|].
  - apply keeps_self_bind; [apply keeps_self_samefile|]. intros [|].
    + apply keeps_self_bind; [apply keeps_self_os_rename|].
      intros _. apply keeps_self_ret.
    + apply keeps_self_bind; [apply keeps_self_exists|]. intros [|].
      * apply keeps_self_raise.
      * apply keeps_self_bind; [apply keeps_self_os_rename|].
        intros _. apply keeps_self_ret.
  - apply keeps_self_bind; [apply keeps_self_os_rename|].
    intros _. apply keeps_self_ret.
Qed.

Lemma keeps_self_move_back (f : path) : keeps_self (move_back f).
Proof.
  unfold move_back.
  apply keeps_self_bind; [apply keeps_self_getattr|]. intros cur.
  apply keeps_self_bind; [apply keeps_self_Path_of|]. intros dst.
  apply keeps_self_bind; [apply keeps_self_shutil_move|]. intros _.
  apply keeps_self_ret.
Qed.

Lemma keeps_self_for_each {A : Type} (xs : list A) (body : A -> M unit) :
  (forall x, keeps_self (body x)) -> keeps_self (for_each xs body).
Proof.
  intros Hb. induction xs as [|x xs IH]; cbn; [apply keeps_self_ret|].
  apply keeps_self_bind; [apply Hb | intros _; exact IH].
Qed.

Lemma Path_iterdir_inv (p : path) (st st' : state) (l : list path) :
  Path_iterdir p st = (st', inr l) ->
  st' = st /\ exists a, stat st p = inr (a, Dir) /\
                        l = map (child p) (children (st_fs st) a).
Proof.
  unfold Path_iterdir. destruct (stat st p) as [e|[a [|]]]; try done.
  intros [= <- <-]. split; [done|]. by exists a.
Qed.

Lemma os_rmdir_nonempty (p : path) (st : state) (a : list string) :
  stat st p = inr (a, Dir) -> children (st_fs st) a <> [] ->
  exists errno, os_rmdir p st = (st, inl (OSError errno)).
Proof.
  intros Hs Hc. unfold os_rmdir. destruct (names_entry p); cbn.
  - rewrite Hs. destruct (children (st_fs st) a); [done|]. by eexists.
  - by eexists.
Qed.

(** C1. The test at the end of the teardown is the wrong way round. In any
    state in which [self.directory] can be listed: when nothing is left
    there, the method warns that the scratch directory "is not empty" and
    leaves the (empty) directory in place; when entries are left, it calls
    [rmdir], which the operating system refuses with an [OSError], and
    neither warns nor changes anything. *)
Theorem remove_or_warn_inverted (st : state) (d : pyval) (p : path) (left : list path) :
  st_self st !! "directory" = Some d ->
  path_of_value d = Some p ->
  Path_iterdir p st = (st, inr left) ->
  (left = [] ->
     remove_or_warn st
     = (with_log (st_log st ++ [EvWarn ("scratchdir " +:+ py_str d
                                        +:+ " is not empty, not deleting.")]) st,
        inr tt)) /\
  (left <> [] -> exists errno, remove_or_warn st = (st, inl (OSError errno))).
Proof.
  intros Hd Hp Hls. unfold remove_or_warn.
  rewrite (bind_ok _ _ _ _ _ (getattr_ok _ _ _ Hd)).
  rewrite (bind_ok _ _ _ _ _ (Path_of_ok _ _ _ Hp)).
  rewrite (bind_ok _ _ _ _ _ Hls).
  split; intros Hleft.
  - rewrite decide_True by done.
    rewrite (bind_ok _ _ _ _ _ (getattr_ok _ _ _ Hd)). reflexivity.
  - rewrite decide_False by done.
    rewrite (bind_ok _ _ _ _ _ (getattr_ok _ _ _ Hd)).
    rewrite (bind_ok _ _ _ _ _ (Path_of_ok _ _ _ Hp)).
    apply Path_iterdir_inv in Hls as (_ & a & Hs & ->).
    destruct (os_rmdir_nonempty p st a Hs) as [errno Hrm].
    { intros Hnil. apply Hleft. by rewrite Hnil. }
    exists errno. by rewrite (bind_err _ _ _ _ _ Hrm).
Qed.

(** Entries are left in the scratch mirror (here: before anything was moved
    back), and [rmdir] is refused. *)
Lemma remove_or_warn_inverted_witness :
  exists errno,
    remove_or_warn Scenario.st_calculated = (Scenario.st_calculated, inl (OSError errno)).
Proof.
  destruct (remove_or_warn_inverted Scenario.st_calculated
              (VPath (mkPath Root ["scratch"; "w_sub_run_aaaa"]))
              (mkPath Root ["scratch"; "w_sub_run_aaaa"])
              (map (child (mkPath Root ["scratch"; "w_sub_run_aaaa"]))
                   ["pw.in"; "out.log"; "save"]))
    as [_ Hnonempty]; [vm_compute; reflexivity ..|].
  apply Hnonempty. discriminate.
Defined.

Section Teardown.

Variable utils_clean_rundir : pyval -> pyval -> pyval -> bool -> M unit.

Hypothesis utils_keeps_self :
  forall rundir keep_files default_keep_files succeeded,
    keeps_self (utils_clean_rundir rundir keep_files default_keep_files succeeded).

(** C3. A teardown with a scratch directory configured that raises nothing
    never removes the scratch working directory: in the state it leaves,
    [self.directory] is unchanged and still names a directory, which is
    empty, and the last thing logged is the warning that it "is not
    empty". *)
Theorem clean_rundir_keeps_scratch_dir (default_keep_files : pyval) (succeeded : bool)
    (st st' : state) (v sd : pyval) :
  st_self st !! "_wfl_scratchdir" = Some sd ->
  sd <> VNone ->
  clean_rundir utils_clean_rundir default_keep_files succeeded st = (st', inr v) ->
  exists (d : pyval) (p : path) (log : list event),
    st_self st' = st_self st /\
    st_self st' !! "directory" = Some d /\
    path_of_value d = Some p /\
    is_dir p st' = (st', inr true) /\
    Path_iterdir p st' = (st', inr []) /\
    st_log st' = (log ++ [EvWarn ("scratchdir " +:+ py_str d
                                  +:+ " is not empty, not deleting.")])%list.
Proof.
  intros Hsd Hne Hrun. unfold clean_rundir in Hrun.
  apply bind_inv_ok in Hrun as (st1 & d0 & Hd0 & Hrun).
  apply getattr_inv in Hd0 as (-> & Hd0).
  apply bind_inv_ok in Hrun as (st1 & kf & Hkf & Hrun).
  apply getattr_inv in Hkf as (-> & Hkf).
  apply bind_inv_ok in Hrun as (st1 & [] & Hutils & Hrun).
  pose proof (utils_keeps_self _ _ _ _ _ _ _ Hutils) as Hself1.
  rewrite (bind_ok _ _ _ st1 _ (getattr_ok _ sd _ ltac:(by rewrite Hself1))) in Hrun.
  rewrite decide_True in Hrun by done.
  apply bind_inv_ok in Hrun as (st5 & [] & Hrun & Hret). injection Hret as <- <-.
  apply bind_inv_ok in Hrun as (st2 & d1 & Hd1 & Hrun).
  apply getattr_inv in Hd1 as (-> & Hd1).
  apply bind_inv_ok in Hrun as (st2 & p1 & Hp1 & Hrun).
  apply Path_of_inv in Hp1 as (-> & Hp1).
  apply bind_inv_ok in Hrun as (st2 & fs & Hglob & Hrun).
  assert (st2 = st1) as ->.
  { unfold Path_glob_star in Hglob. by repeat case_match; simplify_eq. }
  apply bind_inv_ok in Hrun as (st3 & [] & Hloop & Hrun).
  pose proof (keeps_self_for_each _ _ keeps_self_move_back _ _ _ Hloop) as Hself3.
  unfold remove_or_warn in Hrun.
  apply bind_inv_ok in Hrun as (st4 & d2 & Hd2 & Hrun).
  apply getattr_inv in Hd2 as (-> & Hd2).
  apply bind_inv_ok in Hrun as (st4 & p2 & Hp2 & Hrun).
  apply Path_of_inv in Hp2 as (-> & Hp2).
  apply bind_inv_ok in Hrun as (st4 & left & Hleft & Hrun).
  pose proof (Path_iterdir_inv _ _ _ _ Hleft) as (-> & a & Hs & Hl).
  destruct (decide (left = [])) as [->|Hnonempty].
  - apply bind_inv_ok in Hrun as (st4 & d3 & Hd3 & Hrun).
    apply getattr_inv in Hd3 as (-> & Hd3).
    unfold warn, log_event in Hrun. injection Hrun as <-.
    assert (d3 = d2) as -> by congruence.
    exists d2, p2, (st_log st3). cbn. split_and!; try done.
    + congruence.
    + unfold is_dir. cbn. change (stat (with_log _ st3) p2) with (stat st3 p2).
      by rewrite Hs.
    + unfold Path_iterdir. change (stat (with_log _ st3) p2) with (stat st3 p2).
      rewrite Hs. cbn. by rewrite <- Hl.
  - apply bind_inv_ok in Hrun as (st4 & d4 & Hd4 & Hrun).
    apply getattr_inv in Hd4 as (-> & Hd4).
    apply bind_inv_ok in Hrun as (st4 & p4 & Hp4 & Hrun).
    apply Path_of_inv in Hp4 as (-> & Hp4).
    assert (p4 = p2) as -> by congruence.
    destruct (os_rmdir_nonempty p2 st3 a Hs) as [errno Hrm].
    { intros Hnil. apply Hnonempty. by rewrite Hl, Hnil. }
    by rewrite (bind_err _ _ _ _ _ Hrm) in Hrun.
Qed.

End Teardown.

Lemma keeps_self_get_state : keeps_self get_state.
Proof. by intros st st' r [= <- _]. Qed.

Lemma keeps_self_set_fs (fs : gmap (list string) node) : keeps_self (set_fs fs).
Proof. by intros st st' r [= <- _]. Qed.

Lemma keeps_self_policy (rundir keep_files default_keep_files : pyval) (succeeded : bool) :
  keeps_self (KeepPolicy.utils_clean_rundir rundir keep_files default_keep_files succeeded).
Proof.
  unfold KeepPolicy.utils_clean_rundir.
  apply keeps_self_bind; [apply keeps_self_Path_of|]. intros p.
  destruct (KeepPolicy.globs_to_keep _ _); [|apply keeps_self_ret].
  apply keeps_self_bind; [apply keeps_self_get_state|]. intros st.
  destruct (stat st p) as [e|[a [|]]];
    auto using keeps_self_raise, keeps_self_set_fs.
Qed.

(** The scenario of a finished calculation: the kept files are moved back,
    the teardown returns, and the scratch mirror is still there. *)
Lemma clean_rundir_keeps_scratch_dir_witness :
  exists st',
    clean_rundir KeepPolicy.utils_clean_rundir VNone true Scenario.st_calculated
    = (st', inr VNone) /\
    is_dir (mkPath Root ["scratch"; "w_sub_run_aaaa"]) st' = (st', inr true).
Proof.
  exists (fst (clean_rundir KeepPolicy.utils_clean_rundir VNone true
                 Scenario.st_calculated)).
  destruct (clean_rundir_keeps_scratch_dir KeepPolicy.utils_clean_rundir
              keeps_self_policy VNone true Scenario.st_calculated
              (fst (clean_rundir KeepPolicy.utils_clean_rundir VNone true
                      Scenario.st_calculated))
              VNone (VPath (mkPath Root ["scratch"])))
    as (d & p & log & _ & Hd & Hp & Hdir & _);
    [vm_compute; reflexivity | discriminate | vm_compute; reflexivity |].
  split; [vm_compute; reflexivity|].
  assert (d = VPath (mkPath Root ["scratch"; "w_sub_run_aaaa"])) as ->.
  { apply (inj Some). rewrite <- Hd. vm_compute. reflexivity. }
  cbn in Hp. injection Hp as <-. exact Hdir.
Defined.

(** The teardown of the scenario, evaluated: the file that the keep policy
    rejects is deleted, the kept file and directory are back in the run
    directory, the scratch mirror is empty and still in place, and the
    warning has been issued. *)
Example clean_rundir_scenario :
  let r := clean_rundir KeepPolicy.utils_clean_rundir VNone true Scenario.st_calculated in
  snd r = inr VNone /\
  st_fs (fst r) !! ["w"; "sub"; "run_aaaa"; "out.log"] = Some File /\
  st_fs (fst r) !! ["w"; "sub"; "run_aaaa"; "save"; "wfc.dat"] = Some File /\
  st_fs (fst r) !! ["w"; "sub"; "run_aaaa"; "pw.in"] = None /\
  children (st_fs (fst r)) ["scratch"; "w_sub_run_aaaa"] = [] /\
  st_fs (fst r) !! ["scratch"; "w_sub_run_aaaa"] = Some Dir /\
  st_self (fst r) !! "directory"
  = Some (VPath (mkPath Root ["scratch"; "w_sub_run_aaaa"])) /\
  last (st_log (fst r))
  = Some (EvWarn "scratchdir /scratch/w_sub_run_aaaa is not empty, not deleting.").
Proof. vm_compute. by split_and!. Qed.

End CleanFacts.

Module AutoparaFacts.
Import Autopara.

Section Facts.

Context {Structure Properties CalculatorSpec : Type}.
Variable backend : CalculatorSpec -> Structure -> string + Properties.

Local Close Scope string_scope.

Lemma chunker_from_concat (n start : nat) (l : list Structure) :
  1 ≤ n -> concat (map chunk_items (chunker_from n start l)) = l.
Proof.
  funelim (chunker_from n start l); intros Hn; simp chunker_from.
  - lia.
  - reflexivity.
  - cbn [map concat]. rewrite H by lia. cbn [chunk_items]. apply take_drop.
Qed.

Lemma chunker_from_lookup (n start : nat) (l : list Structure) (i : nat) (c : Chunk) :
  chunker_from n start l !! i = Some c ->
  first_index c = start + i * n /\
  chunk_items c = take n (drop (i * n) l) /\
  i * n < length l.
Proof.
  revert i c. funelim (chunker_from n start l); intros i c; simp chunker_from.
  - intros Hc. discriminate.
  - intros Hc. discriminate.
  - destruct i as [|i]; cbn [lookup list_lookup].
    + intros [= <-]. cbn [first_index chunk_items]. repeat split; cbn; lia.
    + intros Hc. apply H in Hc. destruct Hc as (Hf & Hi & Hlt).
      rewrite length_drop in Hlt. rewrite drop_drop in Hi.
      repeat split.
      * lia.
      * rewrite Hi. f_equal; f_equal; lia.
      * lia.
Qed.

Lemma emit_run_chunks (spec : CalculatorSpec) (cs : list Chunk) :
  emit (map (run_chunk backend spec) cs)
  = map (evaluate backend spec) (concat (map chunk_items cs)).
Proof.
  unfold emit. induction cs as [|c cs IH]; [reflexivity|].
  cbn [map concat]. rewrite map_app, IH. reflexivity.
Qed.

Lemma run_serial_in_order (spec : CalculatorSpec) (n : nat) (l : list Structure) :
  1 ≤ n -> run_serial backend spec n l = map (evaluate backend spec) l.
Proof.
  intros Hn. unfold run_serial, chunker.
  rewrite emit_run_chunks, chunker_from_concat by done. reflexivity.
Qed.

#[local] Instance starts_le_transitive : Transitive (@starts_le Structure Properties).
Proof. intros x y z. unfold starts_le. lia. Qed.

#[local] Instance starts_le_total : Total (@starts_le Structure Properties).
Proof. intros x y. unfold starts_le. lia. Qed.

Lemma chunk_results_sorted (spec : CalculatorSpec) (n start : nat) (l : list Structure) :
  Sorted starts_le (map (run_chunk backend spec) (chunker_from n start l)).
Proof.
  funelim (chunker_from n start l); simp chunker_from; try constructor.
  - apply H.
  - destruct (drop (S m) (x :: rest)) as [|y rest'] eqn:E; simp chunker_from.
    + constructor.
    + constructor. unfold starts_le. cbn. lia.
Qed.

Lemma chunk_results_same_start (spec : CalculatorSpec) (n : nat) (l : list Structure)
    (r1 r2 : ChunkResult) :
  1 ≤ n ->
  r1 ∈ map (run_chunk backend spec) (chunker n l) ->
  r2 ∈ map (run_chunk backend spec) (chunker n l) ->
  start_index r1 = start_index r2 -> r1 = r2.
Proof.
  intros Hn H1 H2 Hs.
  apply list_elem_of_fmap in H1 as (c1 & -> & H1).
  apply list_elem_of_fmap in H2 as (c2 & -> & H2).
  apply list_elem_of_lookup in H1 as (i1 & H1).
  apply list_elem_of_lookup in H2 as (i2 & H2).
  destruct (chunker_from_lookup _ _ _ _ _ H1) as (F1 & _ & _).
  destruct (chunker_from_lookup _ _ _ _ _ H2) as (F2 & _ & _).
  cbn in Hs. assert (i1 = i2) by nia. subst i2. congruence.
Qed.

Lemma reorder_restores (spec : CalculatorSpec) (n : nat) (l : list Structure)
    (arrived : list ChunkResult) :
  1 ≤ n ->
  arrived ≡ₚ map (run_chunk backend spec) (chunker n l) ->
  reorder arrived = map (run_chunk backend spec) (chunker n l).
Proof.
  intros Hn Hp. unfold reorder.
  apply (Sorted_unique_strong starts_le).
  - intros x1 x2 Hx1 Hx2 H12 H21.
    apply (chunk_results_same_start spec n l); try done.
    + rewrite <- Hp, <- (merge_sort_Permutation starts_le). done.
    + unfold starts_le in *. lia.
  - apply Sorted_merge_sort. apply _.
  - apply chunk_results_sorted.
  - rewrite merge_sort_Permutation. done.
Qed.

Lemma reorder_completion (completion : list ChunkResult -> list ChunkResult)
    (spec : CalculatorSpec) (n : nat) (l : list Structure) :
  (forall rs, completion rs ≡ₚ rs) ->
  reorder (completion (map (run_chunk backend spec) (chunker n l)))
  = map (run_chunk backend spec) (chunker n l).
Proof.
  intros Hperm. destruct n as [|m].
  - unfold chunker. simp chunker_from. cbn [map].
    rewrite (proj1 (Permutation_nil_r _) (Hperm [])). reflexivity.
  - apply reorder_restores; [lia | apply Hperm].
Qed.

(** C4. Whatever the number of workers and the order in which the workers
    hand back their chunks, the records that the orchestration emits are the
    records of the inputs, in the order of the inputs. *)
Theorem run_emits_in_input_order (workers : nat)
    (completion : list ChunkResult -> list ChunkResult)
    (spec : CalculatorSpec) (n : nat) (inputs : list Structure) :
  1 ≤ n ->
  (forall rs, completion rs ≡ₚ rs) ->
  run backend workers completion spec n inputs = map (evaluate backend spec) inputs.
Proof.
  intros Hn Hperm. unfold run. case_decide.
  - apply run_serial_in_order, Hn.
  - unfold run_parallel. rewrite reorder_completion by done.
    apply run_serial_in_order, Hn.
Qed.

(** C5. The serial in-process path and the worker-pool path produce the same
    sequence of records for the same inputs and calculator spec, for every
    completion order of the pool; hence so does the runner for a worker
    count of at most one and for a larger one. *)
Theorem serial_and_parallel_agree (completion : list ChunkResult -> list ChunkResult)
    (spec : CalculatorSpec) (n : nat) (inputs : list Structure) :
  (forall rs, completion rs ≡ₚ rs) ->
  run_serial backend spec n inputs = run_parallel backend completion spec n inputs /\
  (forall w w', w ≤ 1 -> 1 < w' ->
     run backend w completion spec n inputs = run backend w' completion spec n inputs).
Proof.
  intros Hperm.
  assert (run_serial backend spec n inputs
          = run_parallel backend completion spec n inputs) as Heq.
  { unfold run_parallel. rewrite reorder_completion by done. reflexivity. }
  split; [exact Heq|]. intros w w' Hw Hw'. unfold run.
  repeat case_decide; try lia. exact Heq.
Qed.

(** C6. For a chunk size of at least one the chunks are consecutive slices
    of the input: chunk [i] starts at global index [i * n], holds the next
    [n] items or what is left of them, is never empty, and every chunk but
    the last holds exactly [n] items; no input gives no chunk, and 23 inputs
    in chunks of 10 give chunks of 10, 10 and 3 items. *)
Theorem chunker_contract (n : nat) (inputs : list Structure) :
  1 ≤ n ->
  concat (map chunk_items (chunker n inputs)) = inputs /\
  (forall i c, chunker n inputs !! i = Some c ->
     first_index c = i * n /\
     chunk_items c = take n (drop (i * n) inputs) /\
     1 ≤ length (chunk_items c) ≤ n /\
     (S i < length (chunker n inputs) -> length (chunk_items c) = n)) /\
  (inputs = [] -> chunker n inputs = []) /\
  (length inputs = 23 -> n = 10 ->
     map (fun c => length (chunk_items c)) (chunker n inputs) = [10; 10; 3]).
Proof.
  intros Hn. split; [|split; [|split]].
  - apply chunker_from_concat, Hn.
  - intros i c Hc. unfold chunker in *.
    destruct (chunker_from_lookup _ _ _ _ _ Hc) as (Hf & Hi & Hlt).
    split; [exact Hf|]. split; [exact Hi|].
    assert (length (chunk_items c) = n `min` (length inputs - i * n)) as Hlen.
    { rewrite Hi, length_take, length_drop. reflexivity. }
    split; [lia|]. intros Hnext.
    destruct (lookup_lt_is_Some_2 _ _ Hnext) as [c' Hc'].
    destruct (chunker_from_lookup _ _ _ _ _ Hc') as (_ & _ & Hlt').
    lia.
  - intros ->. unfold chunker. destruct n; simp chunker_from; reflexivity.
  - intros Hlen ->. unfold chunker.
    do 23 (destruct inputs as [|? inputs]; [simpl in Hlen; lia|]).
    destruct inputs; [|simpl in Hlen; lia].
    reflexivity.
Qed.

End Facts.

(** Two workers that hand their chunks back in the reverse order. *)
Lemma run_emits_in_input_order_witness :
  run Scenario.backend 2 reverse tt 10 Scenario.inputs
  = map (evaluate Scenario.backend tt) Scenario.inputs.
Proof.
  apply run_emits_in_input_order; [lia | intros rs; apply reverse_Permutation].
Defined.

Lemma serial_and_parallel_agree_witness :
  run_serial Scenario.backend tt 10 Scenario.inputs
  = run_parallel Scenario.backend reverse tt 10 Scenario.inputs.
Proof.
  apply (serial_and_parallel_agree Scenario.backend reverse tt 10 Scenario.inputs).
  intros rs. apply reverse_Permutation.
Defined.

Lemma chunker_contract_witness :
  map (fun c => length (chunk_items c)) (chunker 10 Scenario.inputs) = [10; 10; 3].
Proof.
  destruct (chunker_contract 10 Scenario.inputs) as (_ & _ & _ & H); [lia|].
  apply H; reflexivity.
Defined.

(** The example of the specification, evaluated: 23 records in the order of
    the inputs, the one of index 7 marked as failed. *)
Example run_scenario :
  let out := run Scenario.backend 2 reverse tt 10 Scenario.inputs in
  length out = 23 /\
  out !! 7 = Some (Failed 7 "calculator error") /\
  out !! 8 = Some (Annotated 8 16) /\
  out !! 22 = Some (Annotated 22 44).
Proof. vm_compute. by split_and!. Qed.

End AutoparaFacts.

(** ** Further properties of the constructor *)

Module InitExtras.
Import WFLFileIOCalculator Frame Effects.

Section Constructor.

Variable super_init :
  gmap string pyval -> gmap string pyval -> result (gmap string pyval).

Lemma keeps_log_bind {A B : Type} (m : M A) (f : A -> M B) :
  keeps_log m -> (forall a, keeps_log (f a)) -> keeps_log (m ≫= f).
Proof.
  intros Hm Hf st st' r Hrun.
  apply bind_inv in Hrun as [(st1 & a & H1 & H2)|(e & H1 & _)].
  - rewrite (Hf a _ _ _ H2). by apply (Hm _ _ _ H1).
  - by apply (Hm _ _ _ H1).
Qed.

Lemma keeps_log_ret {A : Type} (a : A) : keeps_log (mret a).
Proof. by intros st st' r [= <- _]. Qed.

Lemma keeps_log_raise {A : Type} (e : exn) : keeps_log (@raise A e).
Proof. by intros st st' r [= <- _]. Qed.

Lemma keeps_log_getattr (name : string) : keeps_log (getattr name).
Proof.
  intros st st' r. unfold getattr. by destruct (st_self st !! name); intros [= <- _].
Qed.

Lemma keeps_log_setattr (name : string) (v : pyval) : keeps_log (setattr name v).
Proof. by intros st st' r [= <- _]. Qed.

Lemma keeps_log_Path_of (v : pyval) : keeps_log (Path_of v).
Proof.
  unfold Path_of. destruct (path_of_value v);
    [apply keeps_log_ret | apply keeps_log_raise].
Qed.

Lemma keeps_log_as_path (v : pyval) : keeps_log (as_path v).
Proof. destruct v; first [apply keeps_log_ret | apply keeps_log_raise]. Qed.

(** The superclass constructor is called at most once, with the keyword
    arguments as they were passed, and never with a "directory" among them:
    whatever the outcome of the call, the log is either untouched (the
    "directory" rejection) or has gained exactly the one call of
    [super().__init__], whose arguments hold no "directory". The
    constructor never warns. *)
Theorem init_calls_super_once (keep_files rundir_prefix workdir scratchdir : pyval)
    (kwargs : gmap string pyval) (st st' : state) (r : result pyval) :
  __init__ super_init keep_files rundir_prefix workdir scratchdir kwargs st = (st', r) ->
  (is_Some (kwargs !! "directory") /\ st' = st /\
   r = inl (ValueError "Cannot pass directory argument"))
  \/ (kwargs !! "directory" = None /\
      st_log st' = st_log st ++ [EvSuperInit kwargs]).
Proof.
  unfold __init__. destruct (decide (is_Some (kwargs !! "directory"))) as [Hd|Hd].
  - intros [= <- <-]. by left.
  - intros Hrun. right. split.
    { destruct (kwargs !! "directory"); [|done]. by destruct Hd. }
    apply bind_inv in Hrun as [(st1 & [] & H1 & Hrun)|(e & H1 & _)].
    + assert (st_log st1 = st_log st ++ [EvSuperInit kwargs]) as <-.
      { unfold call_super_init in H1.
        destruct (super_init kwargs (st_self st)); by simplify_eq. }
      revert Hrun. generalize st1 st' r.
      change (keeps_log
        (_ ← setattr "_wfl_keep_files" keep_files;
         rp ← Path_of rundir_prefix;
         _ ← setattr "_wfl_rundir_prefix" (VPath rp);
         rp' ← getattr "_wfl_rundir_prefix";
         rp'' ← as_path rp';
         _ ← (if PurePath.is_absolute rp'' then
                w ← getattr "_wfl_workdir";
                if decide (w ≠ VNone) then
                  raise (ValueError ("Can not specify workdir " +:+ py_str workdir
                                     +:+ " if rundir_prefix " +:+ py_str rundir_prefix
                                     +:+ " is an absolute path"))
                else mret tt
              else mret tt);
         wd ← (if decide (workdir ≠ VNone) then Path_of workdir
               else mret (PurePath.of_string "."));
         _ ← setattr "_wfl_workdir" (VPath wd);
         sd ← (if decide (scratchdir ≠ VNone) then p ← Path_of scratchdir; mret (VPath p)
               else mret VNone);
         _ ← setattr "_wfl_scratchdir" sd;
         mret VNone)).
      repeat first
        [ apply keeps_log_ret | apply keeps_log_raise | apply keeps_log_setattr
        | apply keeps_log_getattr | apply keeps_log_Path_of | apply keeps_log_as_path
        | apply keeps_log_bind; [|intros ?]
        | case_match ].
    + unfold call_super_init in H1.
      destruct (super_init kwargs (st_self st)); by simplify_eq.
Qed.

(** With a relative [rundir_prefix], arguments of the documented types and a
    superclass constructor that accepts the keyword arguments, the
    constructor returns [None]; it has stored [keep_files] as given, the
    prefix and the working directory as paths ([Path(".")] when [workdir] is
    [None]) and the scratch directory as a path or [None], on top of what the
    superclass constructor left. *)
Theorem init_returns (keep_files rundir_prefix workdir scratchdir : pyval)
    (kwargs attrs : gmap string pyval) (rp wd : path) (sd : pyval) (st : state) :
  kwargs !! "directory" = None ->
  super_init kwargs (st_self st) = inr attrs ->
  path_of_value rundir_prefix = Some rp ->
  PurePath.is_absolute rp = false ->
  workdir_stored workdir = Some wd ->
  scratchdir_stored scratchdir = Some sd ->
  __init__ super_init keep_files rundir_prefix workdir scratchdir kwargs st
  = (with_self (<["_wfl_scratchdir" := sd]>
                  (<["_wfl_workdir" := VPath wd]>
                     (<["_wfl_rundir_prefix" := VPath rp]>
                        (<["_wfl_keep_files" := keep_files]> attrs))))
       (with_log (st_log st ++ [EvSuperInit kwargs]) st),
     inr VNone).
Proof.
  intros Hdir Hsuper Hrp Hrel Hwd Hsd. unfold __init__.
  rewrite decide_False by (rewrite Hdir; apply is_Some_None).
  unfold call_super_init, mbind, M_bind. rewrite Hsuper.
  unfold setattr, Path_of. rewrite Hrp. cbn.
  unfold getattr. cbn. rewrite lookup_insert_eq. cbn. rewrite Hrel. cbn.
  unfold workdir_stored in Hwd. unfold scratchdir_stored in Hsd.
  destruct (decide (workdir = VNone)) as [->|Hw].
  - injection Hwd as <-. rewrite decide_False by (by intros ?). cbn.
    destruct (decide (scratchdir = VNone)) as [->|Hs].
    + injection Hsd as <-. rewrite decide_False by (by intros ?). reflexivity.
    + rewrite decide_True by done.
      destruct (path_of_value scratchdir) as [p|]; [|done]. injection Hsd as <-.
      reflexivity.
  - rewrite decide_True by done. rewrite Hwd. cbn.
    destruct (decide (scratchdir = VNone)) as [->|Hs].
    + injection Hsd as <-. rewrite decide_False by (by intros ?). reflexivity.
    + rewrite decide_True by done.
      destruct (path_of_value scratchdir) as [p|]; [|done]. injection Hsd as <-.
      reflexivity.
Qed.

(** When the superclass constructor raises, the constructor raises the same
    exception at once: the call of [super().__init__] is all that happened,
    and none of the attributes of the mixin has been assigned. *)
Theorem init_super_failure (keep_files rundir_prefix workdir scratchdir : pyval)
    (kwargs : gmap string pyval) (st : state) (e : exn) :
  kwargs !! "directory" = None ->
  super_init kwargs (st_self st) = inl e ->
  __init__ super_init keep_files rundir_prefix workdir scratchdir kwargs st
  = (with_log (st_log st ++ [EvSuperInit kwargs]) st, inl e).
Proof.
  intros Hdir Hsuper. unfold __init__.
  rewrite decide_False by (rewrite Hdir; apply is_Some_None).
  apply bind_err. unfold call_super_init. by rewrite Hsuper.
Qed.

End Constructor.

Lemma init_super_failure_witness :
  exists st',
    __init__ Scenario2.object_init (VStr "*") (VStr "sub/run_") VNone VNone
      {["label" := VStr "x"]} Scenario.st0 = (st', inl TypeError) /\
    st_self st' = st_self Scenario.st0.
Proof.
  eexists. split.
  - apply (init_super_failure Scenario2.object_init (VStr "*") (VStr "sub/run_") VNone
             VNone {["label" := VStr "x"]} Scenario.st0 TypeError);
      vm_compute; reflexivity.
  - reflexivity.
Defined.

Lemma init_calls_super_once_witness :
  st_log (fst (__init__ Scenario.plain_init (VStr "*") (VStr "sub/run_") VNone
                 (VStr "/scratch") {["label" := VStr "x"]} Scenario.st0))
  = [EvSuperInit {["label" := VStr "x"]}].
Proof.
  destruct (init_calls_super_once Scenario.plain_init (VStr "*") (VStr "sub/run_") VNone
              (VStr "/scratch") {["label" := VStr "x"]} Scenario.st0
              (fst (__init__ Scenario.plain_init (VStr "*") (VStr "sub/run_") VNone
                      (VStr "/scratch") {["label" := VStr "x"]} Scenario.st0))
              (inr VNone))
    as [(Hd & _)|(_ & Hlog)].
  - vm_compute. reflexivity.
  - exfalso. destruct Hd as [v Hv]. vm_compute in Hv. discriminate.
  - exact Hlog.
Defined.

Lemma init_returns_witness :
  exists st',
    __init__ Scenario.plain_init (VList ["*.log"; "save"]) (VStr "sub/run_") VNone
      (VStr "/scratch") ∅ Scenario.st0 = (st', inr VNone) /\
    st_self st' !! "_wfl_workdir" = Some (VPath (mkPath Rel [])) /\
    st_self st' !! "_wfl_scratchdir" = Some (VPath (mkPath Root ["scratch"])).
Proof.
  eexists. split.
  - apply (init_returns Scenario.plain_init _ _ _ _ ∅ ∅ (PurePath.of_string "sub/run_")
             (PurePath.of_string ".") (VPath (PurePath.of_string "/scratch")));
      reflexivity.
  - split; vm_compute; reflexivity.
Defined.

Lemma init_attributes_witness :
  st_self Scenario.st_constructed !! "_wfl_keep_files" = Some (VList ["*.log"; "save"]).
Proof.
  destruct (MixinFacts.init_attributes Scenario.plain_init
              (VList ["*.log"; "save"]) (VStr "sub/run_") VNone (VStr "/scratch") ∅
              Scenario.st0 Scenario.st_constructed VNone) as (_ & Hkf & _).
  - vm_compute. reflexivity.
  - exact Hkf.
Defined.

End InitExtras.

(** ** Further properties of [setup_rundir] *)

Module SetupExtras.
Import WFLFileIOCalculator FS Frame Effects FSFacts MkdirFacts SetupFacts.

Lemma setup_frame_refl (st : state) : setup_frame st st.
Proof. by repeat split. Qed.

Lemma setup_frame_trans (st1 st2 st3 : state) :
  setup_frame st1 st2 -> setup_frame st2 st3 -> setup_frame st1 st3.
Proof.
  intros (F1 & C1 & A1 & L1 & S1) (F2 & C2 & A2 & L2 & S2).
  split_and!; [by etrans | congruence | congruence | congruence |].
  intros name H1 H2. by rewrite S2, S1.
Qed.

Lemma extends_setup_frame (st st' : state) : extends st st' -> setup_frame st st'.
Proof.
  intros Hext. pose proof (extends_fields _ _ Hext) as (Hc & _ & Ha & Hs & Hl).
  destruct Hext as [Hsub _]. split_and!; try done. intros. by rewrite Hs.
Qed.

Lemma within_bind {A B : Type} (m : M A) (f : A -> M B) :
  within_setup_frame m -> (forall a, within_setup_frame (f a)) ->
  within_setup_frame (m ≫= f).
Proof.
  intros Hm Hf st st' r Hrun.
  apply bind_inv in Hrun as [(st1 & a & H1 & H2)|(e & H1 & _)].
  - apply (setup_frame_trans _ st1); [by apply (Hm _ _ _ H1) | by apply (Hf a _ _ _ H2)].
  - by apply (Hm _ _ _ H1).
Qed.

Lemma within_ret {A : Type} (a : A) : within_setup_frame (mret a).
Proof. intros st st' r [= <- _]. apply setup_frame_refl. Qed.

Lemma within_raise {A : Type} (e : exn) : within_setup_frame (@raise A e).
Proof. intros st st' r [= <- _]. apply setup_frame_refl. Qed.

Lemma within_getattr (name : string) : within_setup_frame (getattr name).
Proof.
  intros st st' r. unfold getattr.
  destruct (st_self st !! name); intros [= <- _]; apply setup_frame_refl.
Qed.

Lemma within_as_path (v : pyval) : within_setup_frame (as_path v).
Proof. destruct v; first [apply within_ret | apply within_raise]. Qed.

Lemma within_truediv (a b : pyval) : within_setup_frame (truediv a b).
Proof. destruct a, b; first [apply within_ret | apply within_raise]. Qed.

Lemma within_resolve (p : path) : within_setup_frame (Path_resolve p).
Proof. intros st st' r [= <- _]. apply setup_frame_refl. Qed.

Lemma within_Path_mkdir (p : path) (parents eo : bool) :
  within_setup_frame (Path_mkdir p parents eo).
Proof.
  intros st st' r Hrun. apply extends_setup_frame.
  by apply (Path_mkdir_inv _ _ _ _ _ _ Hrun).
Qed.

Lemma within_set_cur (v : pyval) : within_setup_frame (setattr "_cur_rundir" v).
Proof.
  intros st st' r [= <- _]. split_and!; try done. intros name H1 H2. cbn.
  by rewrite lookup_insert_ne.
Qed.

Lemma within_set_directory (v : pyval) : within_setup_frame (setattr "directory" v).
Proof.
  intros st st' r [= <- _]. split_and!; try done. intros name H1 H2. cbn.
  by rewrite lookup_insert_ne.
Qed.

Lemma within_mkdtemp_loop (tries : nat) (dir : path) (prefix : string) :
  within_setup_frame (mkdtemp_loop tries dir prefix).
Proof.
  induction tries as [|tries IH]; cbn; [apply within_raise|].
  apply within_bind.
  { intros st st' r. unfold next_name.
    destruct (st_names st); intros [= <- _]; by split_and!. }
  intros [nm|]; [|apply within_raise].
  apply within_bind; [|intros [|]; [apply within_ret | apply IH]].
  intros st st' r. unfold try_except, mbind, M_bind.
  destruct (os_mkdir _ st) as [st1 [e|[]]] eqn:Hm.
  - apply os_mkdir_err in Hm as ->.
    destruct e; intros [= <- _]; apply setup_frame_refl.
  - intros [= <- _]. apply os_mkdir_ok_stat in Hm as [Hext _].
    by apply extends_setup_frame.
Qed.

Lemma within_mkdtemp (dir : path) (prefix : string) :
  within_setup_frame (mkdtemp dir prefix).
Proof.
  unfold mkdtemp. apply within_bind; [apply within_mkdtemp_loop|]. intros file.
  apply within_bind.
  { intros st st' r [= <- _]. apply setup_frame_refl. }
  intros st0. destruct (st_abspath st0); [|apply within_ret].
  intros st st' r [= <- _]. apply setup_frame_refl.
Qed.

Ltac within_frame :=
  repeat first
    [ apply within_ret | apply within_raise | apply within_getattr
    | apply within_as_path | apply within_truediv | apply within_resolve
    | apply within_Path_mkdir | apply within_mkdtemp
    | apply within_set_cur | apply within_set_directory
    | apply within_bind; [|intros ?]
    | case_match ].

Lemma setup_rundir_within_frame : within_setup_frame setup_rundir.
Proof. unfold setup_rundir. within_frame. Qed.

(** Whatever its outcome, [setup_rundir] only adds to the file system: no
    entry that existed is removed or changed. It issues no warning, does not
    change the working directory of the process, and assigns no attribute of
    the instance other than [_cur_rundir] and [directory]. *)
Theorem setup_rundir_only_adds (st st' : state) (r : result pyval) :
  setup_rundir st = (st', r) ->
  st_fs st ⊆ st_fs st' /\
  st_cwd st' = st_cwd st /\
  st_log st' = st_log st /\
  forall name, name <> "_cur_rundir" -> name <> "directory" ->
               st_self st' !! name = st_self st !! name.
Proof.
  intros Hrun.
  destruct (setup_rundir_within_frame _ _ _ Hrun) as (Hfs & Hcwd & _ & Hlog & Hself).
  by split_and!.
Qed.

Lemma setup_rundir_only_adds_witness :
  st_fs Scenario.st_constructed ⊆ st_fs Scenario.st_after_setup /\
  st_log Scenario.st_after_setup = st_log Scenario.st_constructed.
Proof.
  destruct (setup_rundir_only_adds Scenario.st_constructed Scenario.st_after_setup
              (inr VNone)) as (Hfs & _ & Hlog & _); [vm_compute; reflexivity|].
  by split.
Defined.

(** When the scratch mirror cannot be created, the exception of its [mkdir]
    leaves [setup_rundir] after the run directory was made: the new run
    directory stays behind, [_cur_rundir] names it, and [directory] is not
    assigned. *)
Theorem setup_rundir_scratch_failure (st st1 st2 st4 : state) (wd rp tmp s : path)
    (e : exn) :
  st_self st !! "_wfl_workdir" = Some (VPath wd) ->
  st_self st !! "_wfl_rundir_prefix" = Some (VPath rp) ->
  st_self st !! "_wfl_scratchdir" = Some (VPath s) ->
  Path_mkdir (PurePath.join wd (PurePath.parent rp)) true true st = (st1, inr ()) ->
  mkdtemp (PurePath.join wd (PurePath.parent rp)) (PurePath.name rp) st1 = (st2, inr tmp) ->
  Path_mkdir (PurePath.join s (PurePath.of_string
                (mirror_name (mkPath Root (normalise (st_cwd st) tmp))))) true true
    (with_self (<["_cur_rundir" := VPath tmp]> (st_self st2)) st2) = (st4, inl e) ->
  setup_rundir st = (st4, inl e) /\
  st_self st4 !! "_cur_rundir" = Some (VPath tmp) /\
  st_self st4 !! "directory" = st_self st !! "directory" /\
  exists file a,
    (tmp = file \/
     tmp = mkPath (match anchor_of file with Root2 => Root2 | _ => Root end)
                  (normalise (st_cwd st) file)) /\
    stat st4 file = inr (a, Dir) /\
    st_fs st !! a = None.
Proof.
  intros Hwd Hrp Hsd Hmk Htmp Hmk2.
  set (st3 := with_self (<["_cur_rundir" := VPath tmp]> (st_self st2)) st2) in *.
  pose proof (Path_mkdir_inv _ _ _ _ _ _ Hmk) as [Hext1 _].
  pose proof (extends_fields _ _ Hext1) as (Hcwd1 & _ & _ & Hself1 & _).
  pose proof (mkdtemp_inv _ _ _ _ _ Htmp)
    as (nm & file & a & _ & _ & Hcur & Hstat & Hnone & _ & Hg2 & _ & Hself2 & _).
  pose proof (Path_mkdir_inv _ _ _ _ _ _ Hmk2) as [Hext4 _].
  pose proof (extends_fields _ _ Hext4) as (_ & _ & _ & Hself4 & _).
  assert (st_self st3 !! "_wfl_scratchdir" = Some (VPath s)) as Hsd3.
  { cbn. rewrite lookup_insert_ne by done. by rewrite Hself2, Hself1. }
  assert (st_self st3 !! "_cur_rundir" = Some (VPath tmp)) as Hcur3.
  { cbn. by rewrite lookup_insert_eq. }
  assert (st_cwd st3 = st_cwd st) as Hcwd3.
  { cbn. by rewrite (proj2 Hg2). }
  split_and!.
  - unfold setup_rundir.
    rewrite (bind_ok _ _ _ _ _ (getattr_ok _ _ _ Hwd)).
    rewrite (bind_ok _ _ _ _ _ (getattr_ok _ _ _ Hrp)).
    cbn [as_path truediv].
    unfold mbind at 1 2, M_bind at 1 2, mret at 1 2, M_ret at 1 2.
    rewrite (bind_ok _ _ _ _ _ Hmk).
    rewrite (bind_ok _ _ _ st1 _ (getattr_ok _ (VPath rp) _ ltac:(by rewrite Hself1))).
    cbn [as_path]. unfold mbind at 1, M_bind at 1, mret at 1, M_ret at 1.
    rewrite (bind_ok _ _ _ _ _ Htmp).
    unfold mbind at 1, M_bind at 1, setattr at 1. fold st3.
    rewrite (bind_ok _ _ _ _ _ (getattr_ok _ _ _ Hsd3)).
    rewrite decide_True by done.
    unfold mbind at 1, M_bind at 1.
    rewrite (bind_ok _ _ _ _ _ (getattr_ok _ _ _ Hcur3)).
    cbn [as_path].
    unfold mbind at 1 2, M_bind at 1 2, mret at 1, M_ret at 1, Path_resolve.
    rewrite (bind_ok _ _ _ _ _ (getattr_ok _ _ _ Hsd3)).
    cbn [truediv]. unfold mbind at 1, M_bind at 1, mret at 1, M_ret at 1.
    rewrite Hcwd3. by rewrite (bind_err _ _ _ _ _ Hmk2).
  - by rewrite Hself4.
  - rewrite Hself4. cbn. rewrite lookup_insert_ne by done. by rewrite Hself2, Hself1.
  - exists file, a. rewrite Hcwd1 in Hcur. split_and!; [done| |].
    + apply (stat_mono st2); [|done].
      apply (grows_trans _ st3); [by split | by apply extends_grows].
    + destruct Hext1 as [Hsub _]. destruct (st_fs st !! a) eqn:E; [|done].
      by rewrite (lookup_weaken _ _ _ _ E Hsub) in Hnone.
Qed.

Lemma setup_rundir_scratch_failure_witness :
  exists st4,
    setup_rundir Scenario2.st_scratch_blocked = (st4, inl NotADirectoryError) /\
    st_self st4 !! "_cur_rundir" = Some (VPath (mkPath Rel ["sub"; "run_aaaa"])) /\
    st_self st4 !! "directory" = None /\
    st_fs st4 !! ["w"; "sub"; "run_aaaa"] = Some Dir.
Proof.
  set (st := Scenario2.st_scratch_blocked).
  set (rundir := PurePath.join (PurePath.of_string ".")
                   (PurePath.parent (PurePath.of_string "sub/run_"))).
  set (st1 := fst (Path_mkdir rundir true true st)).
  set (st2 := fst (mkdtemp rundir "run_" st1)).
  set (tmp := mkPath Rel ["sub"; "run_aaaa"]).
  set (st4 := fst (Path_mkdir (mkPath Root ["scratch"; "w_sub_run_aaaa"]) true true
                     (with_self (<["_cur_rundir" := VPath tmp]> (st_self st2)) st2))).
  exists st4.
  destruct (setup_rundir_scratch_failure st st1 st2 st4
              (PurePath.of_string ".") (PurePath.of_string "sub/run_") tmp
              (PurePath.of_string "/scratch") NotADirectoryError)
    as (Hrun & Hcur & Hdir & _); [vm_compute; reflexivity ..|].
  split_and!; [exact Hrun | exact Hcur | | vm_compute; reflexivity].
  rewrite Hdir. vm_compute. reflexivity.
Defined.

Lemma walk_normalise (fs : gmap (list string) node) (comps cur a : list string) :
  walk fs cur comps = inr a -> fold_left step comps cur = a.
Proof.
  revert cur. induction comps as [|c rest IH]; intros cur; cbn.
  - by intros [= <-].
  - destruct (fs !! cur) as [[|]|]; try done. apply IH.
Qed.

Lemma plain_removelast (l : list string) : plain l -> plain (removelast l).
Proof.
  unfold plain. induction l as [|x l IH]; [done|]. intros H.
  apply Forall_cons in H as [Hx Hl]. cbn. destruct l; [constructor|].
  constructor; [done | by apply IH].
Qed.

Lemma plain_step (cur : list string) (c : string) : plain cur -> plain (step cur c).
Proof.
  intros Hp. unfold step. destruct (String.eqb_spec c "..").
  - by apply plain_removelast.
  - apply Forall_app. split; [done|]. by constructor.
Qed.

Lemma fold_step_keeps_plain (comps cur : list string) :
  plain cur -> plain (fold_left step comps cur).
Proof.
  revert cur. induction comps as [|c rest IH]; intros cur Hp; [done|].
  cbn. apply IH. by apply plain_step.
Qed.

Lemma fold_step_plain (a cur : list string) :
  plain a -> fold_left step a cur = cur ++ a.
Proof.
  revert cur. induction a as [|c a IH]; intros cur Hp; cbn.
  - by rewrite app_nil_r.
  - apply Forall_cons in Hp as [Hc Ha]. rewrite step_plain by done.
    rewrite IH by done. by rewrite <- app_assoc.
Qed.

(** Where the run directory of a returning call is: at a place of the file
    system that was free, and that [_cur_rundir] resolves to. *)
Lemma setup_rundir_creates (st st' : state) (v : pyval) :
  plain (st_cwd st) ->
  setup_rundir st = (st', inr v) ->
  exists cur a,
    st_self st' !! "_cur_rundir" = Some (VPath cur) /\
    normalise (st_cwd st) cur = a /\
    st_fs st !! a = None /\
    st_fs st' !! a = Some Dir.
Proof.
  intros Hcwd Hrun.
  unfold setup_rundir in Hrun.
  apply bind_inv_ok in Hrun as (st0 & wd & Hwd & Hrun).
  apply getattr_inv in Hwd as [-> Hwd].
  apply bind_inv_ok in Hrun as (st0 & rp & Hrp & Hrun).
  apply getattr_inv in Hrp as [-> Hrp].
  apply bind_inv_ok in Hrun as (st0 & rp_path & Hrpp & Hrun).
  apply as_path_inv in Hrpp as [-> ->].
  apply bind_inv_ok in Hrun as (st0 & rundir & Hdiv & Hrun).
  apply truediv_inv in Hdiv as (-> & _).
  apply bind_inv_ok in Hrun as (st1 & [] & Hmk & Hrun).
  pose proof (Path_mkdir_inv _ _ _ _ _ _ Hmk) as [Hext1 _].
  pose proof (extends_fields _ _ Hext1) as (Hcwd1 & _ & _ & Hself1 & _).
  apply bind_inv_ok in Hrun as (st1' & rp' & Hrp' & Hrun).
  apply getattr_inv in Hrp' as [-> Hrp'].
  apply bind_inv_ok in Hrun as (st1' & rp_path' & Hrpp' & Hrun).
  apply as_path_inv in Hrpp' as [-> ->].
  apply bind_inv_ok in Hrun as (st2 & tmp & Htmp & Hrun).
  apply mkdtemp_inv in Htmp
    as (nm & file & a & _ & _ & Hcur & Hstat & Hnone & Hfs2 & Hg2 & _).
  apply bind_inv_ok in Hrun as (st3 & [] & Hset & Hrun).
  injection Hset as <-.
  assert (normalise (st_cwd st) file = a) as Hnorm.
  { unfold stat, locate in Hstat.
    destruct (walk (st_fs st2) _ (parts file)) as [|b] eqn:Hw; [done|].
    destruct (st_fs st2 !! b); [|done]. injection Hstat as -> _.
    apply walk_normalise in Hw. unfold normalise.
    by rewrite <- Hcwd1, <- (proj2 Hg2). }
  assert (plain a) as Hplain.
  { rewrite <- Hnorm. unfold normalise. apply fold_step_keeps_plain.
    unfold start_of. destruct (PurePath.is_absolute file); [constructor | done]. }
  assert (normalise (st_cwd st) tmp = a) as Hnorm_tmp.
  { destruct Hcur as [->| ->]; [done|].
    unfold normalise at 1. cbn [parts]. rewrite Hcwd1, Hnorm.
    replace (start_of _ _) with (@nil string).
    - by rewrite fold_step_plain.
    - unfold start_of, PurePath.is_absolute. cbn. by destruct (anchor_of file). }
  set (st3 := with_self (<["_cur_rundir" := VPath tmp]> (st_self st2)) st2) in *.
  assert (setup_frame st3 st') as (Hsub & _ & _ & _ & Hself).
  { revert Hrun. generalize st3 st' (@inr exn pyval v).
    match goal with
    | |- forall s s' r, ?m s = (s', r) -> _ => change (within_setup_frame m)
    end.
    within_frame. }
  assert (st_self st' !! "_cur_rundir" = Some (VPath tmp)) as Hattr.
  { apply bind_inv_ok in Hrun as (st4 & sd & Hsd & Hrun).
    apply getattr_inv in Hsd as [-> Hsd].
    apply bind_inv_ok in Hrun as (st5 & [] & Hbranch & Hret).
    injection Hret as <- _.
    destruct (decide (sd ≠ VNone)).
    - apply bind_inv_ok in Hbranch as (st6 & cur & Hc & Hbranch).
      apply getattr_inv in Hc as [-> Hc].
      apply bind_inv_ok in Hbranch as (st6 & cp & Hcp & Hbranch).
      apply as_path_inv in Hcp as [-> ->].
      apply bind_inv_ok in Hbranch as (st6 & res & Hres & Hbranch).
      injection Hres as <- <-.
      apply bind_inv_ok in Hbranch as (st6 & sd' & Hsd' & Hbranch).
      apply getattr_inv in Hsd' as [-> Hsd'].
      apply bind_inv_ok in Hbranch as (st6 & directory & Hdiv & Hbranch).
      apply truediv_inv in Hdiv as (-> & _).
      apply bind_inv_ok in Hbranch as (st6 & [] & Hmk2 & Hset).
      pose proof (Path_mkdir_inv _ _ _ _ _ _ Hmk2) as [Hext6 _].
      pose proof (extends_fields _ _ Hext6) as (_ & _ & _ & Hself6 & _).
      injection Hset as <-. cbn. rewrite lookup_insert_ne by done.
      rewrite Hself6. cbn. by rewrite lookup_insert_eq.
    - apply bind_inv_ok in Hbranch as (st6 & cur & Hc & Hset).
      apply getattr_inv in Hc as [-> Hc]. injection Hset as <-.
      cbn. rewrite lookup_insert_ne by done. by rewrite lookup_insert_eq. }
  exists tmp, a. split_and!; try done.
  - destruct Hext1 as [Hsub1 _]. destruct (st_fs st !! a) eqn:E; [|done].
    by rewrite (lookup_weaken _ _ _ _ E Hsub1) in Hnone.
  - apply (lookup_weaken (st_fs st3)); [|done]. cbn. rewrite Hfs2.
    apply lookup_insert_eq.
Qed.

(** Two calls in a row give two run directories: the second call draws a
    name that is not taken, so [_cur_rundir] resolves to a different place
    than after the first call, and both directories exist afterwards. *)
Theorem setup_rundir_twice (st st1 st2 : state) (v1 v2 : pyval) :
  plain (st_cwd st) ->
  setup_rundir st = (st1, inr v1) ->
  setup_rundir st1 = (st2, inr v2) ->
  exists cur1 cur2,
    st_self st1 !! "_cur_rundir" = Some (VPath cur1) /\
    st_self st2 !! "_cur_rundir" = Some (VPath cur2) /\
    normalise (st_cwd st) cur1 <> normalise (st_cwd st) cur2 /\
    st_fs st !! normalise (st_cwd st) cur1 = None /\
    st_fs st !! normalise (st_cwd st) cur2 = None /\
    st_fs st2 !! normalise (st_cwd st) cur1 = Some Dir /\
    st_fs st2 !! normalise (st_cwd st) cur2 = Some Dir.
Proof.
  intros Hcwd Hrun1 Hrun2.
  destruct (setup_rundir_within_frame _ _ _ Hrun1) as (Hsub1 & Hcwd1 & _).
  destruct (setup_rundir_within_frame _ _ _ Hrun2) as (Hsub2 & _).
  destruct (setup_rundir_creates _ _ _ Hcwd Hrun1) as (cur1 & a1 & Hc1 & Hn1 & Hfree1 & Hd1).
  assert (plain (st_cwd st1)) as Hcwd' by (by rewrite Hcwd1).
  destruct (setup_rundir_creates _ _ _ Hcwd' Hrun2) as (cur2 & a2 & Hc2 & Hn2 & Hfree2 & Hd2).
  rewrite Hcwd1 in Hn2. exists cur1, cur2. rewrite Hn1, Hn2.
  split_and!; try done.
  - intros ->. congruence.
  - destruct (st_fs st !! a2) eqn:E; [|done].
    by rewrite (lookup_weaken _ _ _ _ E Hsub1) in Hfree2.
  - by apply (lookup_weaken _ _ _ _ Hd1 Hsub2).
Qed.

Lemma setup_rundir_twice_witness :
  exists st2,
    setup_rundir Scenario.st_after_setup = (st2, inr VNone) /\
    st_fs st2 !! ["w"; "sub"; "run_aaaa"] = Some Dir /\
    st_fs st2 !! ["w"; "sub"; "run_bbbb"] = Some Dir.
Proof.
  exists (fst (setup_rundir Scenario.st_after_setup)).
  destruct (setup_rundir_twice Scenario.st_constructed Scenario.st_after_setup
              (fst (setup_rundir Scenario.st_after_setup)) VNone VNone)
    as (cur1 & cur2 & Hc1 & Hc2 & _ & _ & _ & Hd1 & Hd2).
  - repeat constructor; discriminate.
  - vm_compute. reflexivity.
  - vm_compute. reflexivity.
  - vm_compute in Hc1. injection Hc1 as <-.
    vm_compute in Hc2. injection Hc2 as <-.
    split_and!; [vm_compute; reflexivity | exact Hd1 | exact Hd2].
Defined.


Lemma of_string_component (c : string) :
  component c -> PurePath.of_string c = mkPath Rel [c].
Proof. intros (Hs & Hk & _). rewrite of_string_clean by done. by rewrite Hk. Qed.

Lemma last_snoc (l : list string) (c d : string) : List.last (l ++ [c]) d = c.
Proof. induction l as [|x l IH]; [done|]. cbn. destruct (l ++ [c]) eqn:E; [by destruct l|]. done. Qed.

Lemma os_mkdir_child (dir : path) (c : string) (b : list string) (st : state) :
  stat st dir = inr (b, Dir) -> component c ->
  os_mkdir (PurePath.join dir (PurePath.of_string c)) st
  = match st_fs st !! (b ++ [c]) with
    | Some _ => (st, inl FileExistsError)
    | None => (with_fs (<[b ++ [c] := Dir]> (st_fs st)) st, inr ())
    end.
Proof.
  intros Hstat Hc. rewrite (of_string_component c Hc). destruct Hc as (_ & _ & Hdd).
  unfold PurePath.join. cbn. unfold os_mkdir, locate, start_of, PurePath.is_absolute.
  cbn [anchor_of parts].
  unfold stat, locate, start_of, PurePath.is_absolute in Hstat.
  rewrite walk_snoc.
  destruct (walk (st_fs st) _ (parts dir)) as [|b'] eqn:Hw; [done|].
  destruct (st_fs st !! b') as [nd|] eqn:Hb; [|done].
  injection Hstat as -> ->. rewrite step_plain by done.
  destruct (st_fs st !! (b ++ [c])); [done|].
  unfold names_entry. cbn [parts]. rewrite last_snoc.
  destruct (parts dir ++ [c]) eqn:E; [by destruct (parts dir)|].
  by destruct (String.eqb_spec c "..").
Qed.

Lemma mkdtemp_loop_first_free (taken : list string) (tries : nat) (dir : path)
    (prefix nm0 : string) (rest : list string) (b : list string) (st : state) :
  stat st dir = inr (b, Dir) ->
  Forall (fun nm => component (prefix +:+ nm)) (taken ++ [nm0]) ->
  Forall (fun nm => is_Some (st_fs st !! (b ++ [prefix +:+ nm]))) taken ->
  st_fs st !! (b ++ [prefix +:+ nm0]) = None ->
  st_names st = taken ++ nm0 :: rest ->
  length taken < tries ->
  mkdtemp_loop tries dir prefix st
  = (with_names rest (with_fs (<[b ++ [prefix +:+ nm0] := Dir]> (st_fs st)) st),
     inr (PurePath.join dir (PurePath.of_string (prefix +:+ nm0)))).
Proof.
  revert tries st. induction taken as [|nm taken IH]; intros tries st Hstat Hcomp Htaken
    Hfree Hnames Hlen; (destruct tries as [|tries]; [cbn in Hlen; lia|]); cbn.
  - unfold mbind at 1, M_bind at 1, next_name. rewrite Hnames. cbn.
    cbn in Hcomp. rewrite Forall_singleton in Hcomp.
    unfold mbind at 1, M_bind at 1, try_except, mbind at 1, M_bind at 1.
    rewrite (os_mkdir_child dir _ b (with_names rest st) Hstat Hcomp).
    cbn. rewrite Hfree. reflexivity.
  - unfold mbind at 1, M_bind at 1, next_name. rewrite Hnames. cbn.
    cbn in Hcomp. apply Forall_cons in Hcomp as [Hc Hcomp].
    apply Forall_cons in Htaken as [[nd Hnd] Htaken].
    unfold mbind at 1, M_bind at 1, try_except, mbind at 1, M_bind at 1.
    rewrite (os_mkdir_child dir _ b (with_names (taken ++ nm0 :: rest) st) Hstat Hc).
    cbn. rewrite Hnd. cbn.
    rewrite (IH tries (with_names (taken ++ nm0 :: rest) st)); try done.
    cbn in Hlen. lia.
Qed.

(** With the parent directory in place and no scratch root, [setup_rundir]
    returns after creating exactly one directory: the entry of the parent
    named by the prefix and the first candidate name of [tempfile] that is
    not taken there. The candidates before it are drawn and skipped, both
    [_cur_rundir] and [directory] name the new directory, and nothing else
    in the state changes. *)
Theorem setup_rundir_first_free_name (st : state) (wd rp : path) (b : list string)
    (taken : list string) (nm0 : string) (rest : list string) :
  st_self st !! "_wfl_workdir" = Some (VPath wd) ->
  st_self st !! "_wfl_rundir_prefix" = Some (VPath rp) ->
  st_self st !! "_wfl_scratchdir" = Some VNone ->
  stat st (PurePath.join wd (PurePath.parent rp)) = inr (b, Dir) ->
  Forall (fun nm => component (PurePath.name rp +:+ nm)) (taken ++ [nm0]) ->
  Forall (fun nm => is_Some (st_fs st !! (b ++ [PurePath.name rp +:+ nm]))) taken ->
  st_fs st !! (b ++ [PurePath.name rp +:+ nm0]) = None ->
  st_names st = taken ++ nm0 :: rest ->
  length taken < TMP_MAX ->
  let file := PurePath.join (PurePath.join wd (PurePath.parent rp))
                (PurePath.of_string (PurePath.name rp +:+ nm0)) in
  let tmp := if st_abspath st
             then mkPath (match anchor_of file with Root2 => Root2 | _ => Root end)
                         (normalise (st_cwd st) file)
             else file in
  setup_rundir st
  = (with_self (<["directory" := VPath tmp]>
                  (<["_cur_rundir" := VPath tmp]> (st_self st)))
       (with_names rest
          (with_fs (<[b ++ [PurePath.name rp +:+ nm0] := Dir]> (st_fs st)) st)),
     inr VNone).
Proof.
  intros Hwd Hrp Hsd Hstat Hcomp Htaken Hfree Hnames Hlen file tmp.
  set (rundir := PurePath.join wd (PurePath.parent rp)) in *.
  assert (Path_mkdir rundir true true st = (st, inr ())) as Hmk.
  { unfold Path_mkdir.
    assert (forall n, mkdir_parents n rundir true st = (st, inr ())) as Hany; [|apply Hany].
    assert (os_mkdir rundir st = (st, inl FileExistsError)) as Hos.
    { unfold os_mkdir. unfold stat in Hstat.
      destruct (locate st rundir) as [|b']; [done|].
      destruct (st_fs st !! b'); [done|done]. }
    assert (is_dir rundir st = (st, inr true)) as Hd by (apply is_dir_true; eauto).
    intros n. destruct n; cbn; unfold try_except; rewrite Hos;
      unfold mkdir_except; cbn; by rewrite (bind_ok _ _ _ _ _ Hd). }
  assert (mkdtemp rundir (PurePath.name rp) st
          = (with_names rest
               (with_fs (<[b ++ [PurePath.name rp +:+ nm0] := Dir]> (st_fs st)) st),
             inr tmp)) as Htmp.
  { unfold mkdtemp.
    rewrite (bind_ok _ _ _ _ _
               (mkdtemp_loop_first_free taken TMP_MAX rundir _ nm0 rest b st
                  Hstat Hcomp Htaken Hfree Hnames Hlen)).
    unfold mbind, M_bind, get_state, abspath, mret, M_ret. cbn. subst tmp file.
    by destruct (st_abspath st). }
  unfold setup_rundir.
  rewrite (bind_ok _ _ _ _ _ (getattr_ok _ _ _ Hwd)).
  rewrite (bind_ok _ _ _ _ _ (getattr_ok _ _ _ Hrp)).
  cbn [as_path truediv].
  unfold mbind at 1 2, M_bind at 1 2, mret at 1 2, M_ret at 1 2. fold rundir.
  rewrite (bind_ok _ _ _ _ _ Hmk).
  rewrite (bind_ok _ _ _ _ _ (getattr_ok _ _ _ Hrp)).
  cbn [as_path]. unfold mbind at 1, M_bind at 1, mret at 1, M_ret at 1.
  rewrite (bind_ok _ _ _ _ _ Htmp).
  unfold mbind at 1, M_bind at 1, setattr at 1.
  set (st3 := with_self _ (with_names rest _)).
  assert (st_self st3 !! "_wfl_scratchdir" = Some VNone) as Hsd3.
  { cbn. by rewrite lookup_insert_ne. }
  assert (st_self st3 !! "_cur_rundir" = Some (VPath tmp)) as Hcur3.
  { cbn. by rewrite lookup_insert_eq. }
  rewrite (bind_ok _ _ _ _ _ (getattr_ok _ _ _ Hsd3)).
  rewrite decide_False by (by intros ?).
  unfold mbind at 1, M_bind at 1.
  rewrite (bind_ok _ _ _ _ _ (getattr_ok _ _ _ Hcur3)).
  reflexivity.
Qed.

Lemma setup_rundir_first_free_name_witness :
  exists st',
    setup_rundir Scenario2.st_name_taken = (st', inr VNone) /\
    st_fs st' = <[ ["w"; "sub"; "run_bbbb"] := Dir ]> (st_fs Scenario2.st_name_taken) /\
    st_self st' !! "directory" = Some (VPath (mkPath Rel ["sub"; "run_bbbb"])).
Proof.
  eexists. split.
  - apply (setup_rundir_first_free_name Scenario2.st_name_taken
             (PurePath.of_string ".") (PurePath.of_string "sub/run_")
             ["w"; "sub"] ["aaaa"] "bbbb" []).
    + vm_compute. reflexivity.
    + vm_compute. reflexivity.
    + vm_compute. reflexivity.
    + vm_compute. reflexivity.
    + repeat constructor; discriminate.
    + repeat constructor. by eexists.
    + vm_compute. reflexivity.
    + reflexivity.
    + unfold TMP_MAX. cbn [length]. lia.
  - split; [reflexivity | vm_compute; reflexivity].
Defined.

Lemma slashes_to_underscores_app (s t : string) :
  slashes_to_underscores (s +:+ t) = slashes_to_underscores s +:+ slashes_to_underscores t.
Proof.
  induction s as [|c s IH]; [done|].
  change (String c s +:+ t) with (String c (s +:+ t)).
  cbn [slashes_to_underscores]. rewrite IH. reflexivity.
Qed.

Lemma join_parts_cons (c : string) (ps : list string) :
  ps <> [] -> PurePath.join_parts (c :: ps) = c +:+ "/" +:+ PurePath.join_parts ps.
Proof. by destruct ps. Qed.

Lemma mirror_name_root (ps : list string) :
  mirror_name (mkPath Root ps) = slashes_to_underscores (PurePath.join_parts ps).
Proof. unfold mirror_name, PurePath.to_string. by destruct ps. Qed.

(** The name of the scratch mirror does not determine the run directory:
    a run directory [x/y] and a run directory [x_y] in the same place are
    two different paths with one and the same mirror name, so that their
    calculations share one scratch directory. *)
Theorem mirror_name_collision (ps : list string) (x y : string) :
  mirror_name (mkPath Root (ps ++ [x; y]))
  = mirror_name (mkPath Root (ps ++ [x +:+ "_" +:+ y])) /\
  mkPath Root (ps ++ [x; y]) <> mkPath Root (ps ++ [x +:+ "_" +:+ y]).
Proof.
  split.
  - rewrite !mirror_name_root. induction ps as [|c ps IH].
    + cbn [app PurePath.join_parts]. by rewrite !slashes_to_underscores_app.
    + cbn [app]. rewrite !join_parts_cons by (by destruct ps).
      rewrite !(slashes_to_underscores_app c), !(slashes_to_underscores_app "/").
      by rewrite IH.
  - intros [= H]. apply (f_equal length) in H. rewrite !length_app in H. cbn in H. lia.
Qed.

End SetupExtras.
(** ** Further properties of [clean_rundir] *)

Module CleanExtras.
Import WFLFileIOCalculator FS Frame Effects Moves FSFacts MkdirFacts SetupFacts CleanFacts.

Lemma strip_prefix_spec (a k r : list string) :
  strip_prefix a k = Some r <-> k = a ++ r.
Proof.
  revert k. induction a as [|x a IH]; intros k; cbn.
  - split; [by intros [= ->] | by intros ->].
  - destruct k as [|y k]; [split; intros; discriminate|].
    destruct (String.eqb_spec x y) as [->|Hne].
    + rewrite IH. split; [by intros -> | by intros [= ->]].
    + split; [done | intros [= ? _]; done].
Qed.

Lemma strip_prefix_app (a r : list string) : strip_prefix a (a ++ r) = Some r.
Proof. by apply strip_prefix_spec. Qed.

Lemma strip_prefix_snoc (a k : list string) (c : string) :
  strip_prefix (a ++ [c]) k
  = match strip_prefix a k with
    | Some (c' :: r) => if decide (c' = c) then Some r else None
    | _ => None
    end.
Proof.
  destruct (strip_prefix a k) as [[|c' r]|] eqn:E.
  - apply strip_prefix_spec in E as ->.
    destruct (strip_prefix _ _) eqn:E'; [|done].
    apply strip_prefix_spec in E'. rewrite <- app_assoc in E'.
    apply (f_equal length) in E'. rewrite !length_app in E'. cbn in E'. lia.
  - apply strip_prefix_spec in E as ->. destruct (decide (c' = c)) as [->|Hne].
    + apply strip_prefix_spec. by rewrite <- app_assoc.
    + destruct (strip_prefix _ _) eqn:E'; [|done].
      apply strip_prefix_spec in E'. rewrite <- app_assoc in E'.
      apply app_inv_head in E'. by injection E'.
  - destruct (strip_prefix (a ++ [c]) k) eqn:E'; [|done].
    apply strip_prefix_spec in E' as ->. rewrite <- app_assoc in E.
    by rewrite strip_prefix_app in E.
Qed.

Lemma strip_prefix_apart (a ra k : list string) :
  apart a ra -> is_Some (strip_prefix ra k) -> strip_prefix a k = None.
Proof.
  intros [H1 H2] [r Hr]. apply strip_prefix_spec in Hr as ->.
  destruct (strip_prefix a _) as [r'|] eqn:E; [|done].
  apply strip_prefix_spec in E.
  destruct (prefix_weak_total a ra (ra ++ r)) as [?|?]; try done.
  - exists r'. done.
  - by exists r.
Qed.

Lemma apart_sym (a ra : list string) : apart a ra -> apart ra a.
Proof. by intros [? ?]. Qed.

Lemma child_of_spec (a k : list string) (c : string) :
  child_of a k = Some c <-> k = a ++ [c].
Proof.
  unfold child_of. destruct (strip_prefix a k) as [[|c' [|? ?]]|] eqn:E.
  - apply strip_prefix_spec in E as ->. split; [done|].
    intros H. apply (f_equal length) in H. rewrite !length_app in H. cbn in H. lia.
  - apply strip_prefix_spec in E as ->. split; [by intros [= ->]|].
    intros H. apply app_inv_head in H. by injection H as ->.
  - apply strip_prefix_spec in E as ->. split; [done|].
    intros H. apply app_inv_head in H. discriminate.
  - split; [done|]. intros ->. by rewrite strip_prefix_app in E.
Qed.

Lemma elem_of_children (fs : gmap (list string) node) (a : list string) (c : string) :
  c ∈ children fs a <-> is_Some (fs !! (a ++ [c])).
Proof.
  unfold children. rewrite list_elem_of_omap. split.
  - intros ([k v] & Hin & Hc). apply child_of_spec in Hc. cbn in Hc. subst k.
    apply elem_of_map_to_list in Hin. by exists v.
  - intros [v Hv]. exists (a ++ [c], v). split.
    + by apply elem_of_map_to_list.
    + by apply child_of_spec.
Qed.

Lemma children_nil (fs : gmap (list string) node) (a : list string) :
  (forall c, fs !! (a ++ [c]) = None) -> children fs a = [].
Proof.
  intros H. apply elem_of_nil_inv. intros c Hc.
  apply elem_of_children in Hc as [v Hv]. by rewrite H in Hv.
Qed.

Lemma NoDup_omap_keys (a : list string) (l : list (list string * node)) :
  NoDup l.*1 -> NoDup (omap (fun kv => child_of a kv.1) l).
Proof.
  induction l as [|[k v] l IH]; cbn; [constructor|].
  intros Hnd. apply NoDup_cons in Hnd as [Hk Hl].
  destruct (child_of a k) as [c|] eqn:E; [|by apply IH].
  apply NoDup_cons. split; [|by apply IH].
  intros Hin. apply list_elem_of_omap in Hin as ([k' v'] & Hin & Hc).
  apply child_of_spec in E, Hc. cbn in Hc. subst k k'.
  apply Hk. apply list_elem_of_fmap. by exists (a ++ [c], v').
Qed.

Lemma NoDup_children (fs : gmap (list string) node) (a : list string) :
  NoDup (children fs a).
Proof. apply NoDup_omap_keys, NoDup_fst_map_to_list. Qed.

(** Resolution of a path looks only at the places it passes through. *)
Lemma walk_agree (fs fs' : gmap (list string) node) (comps cur : list string) :
  (forall k, k ∈ visited cur comps -> fs' !! k = fs !! k) ->
  walk fs' cur comps = walk fs cur comps.
Proof.
  revert cur. induction comps as [|c rest IH]; intros cur Hag; [done|].
  cbn [walk]. rewrite (Hag cur) by (cbn; by left).
  destruct (fs !! cur) as [[|]|]; try done.
  apply IH. intros k Hk. apply Hag. cbn. by right.
Qed.

Lemma walk_arrives (fs : gmap (list string) node) (comps cur x : list string) :
  walk fs cur comps = inr x -> x ∈ visited cur comps.
Proof.
  revert cur. induction comps as [|c rest IH]; intros cur; cbn.
  - intros [= <-]. by left.
  - destruct (fs !! cur) as [[|]|]; try done. intros H. right. by apply IH.
Qed.

Lemma stat_agree (st : state) (fs' : gmap (list string) node) (p : path)
    (x : list string) (n : node) :
  stat st p = inr (x, n) ->
  (forall k, k ∈ visited (start_of (st_cwd st) p) (parts p) -> fs' !! k = st_fs st !! k) ->
  stat (with_fs fs' st) p = inr (x, n).
Proof.
  intros Hs Hag. unfold stat, locate in *. cbn [st_fs st_cwd with_fs].
  rewrite (walk_agree (st_fs st) fs') by done.
  destruct (walk _ _ _) as [|y] eqn:Hw; [done|].
  rewrite (Hag y) by (by apply walk_arrives in Hw).
  exact Hs.
Qed.

Lemma visited_plain (comps cur k : list string) :
  plain comps -> k ∈ visited cur comps -> k `prefix_of` cur ++ comps.
Proof.
  revert cur. induction comps as [|c rest IH]; intros cur Hp; cbn.
  - intros Hk. apply list_elem_of_singleton in Hk as ->. by rewrite app_nil_r.
  - apply Forall_cons in Hp as [Hc Hrest]. intros Hk.
    apply elem_of_cons in Hk as [->|Hk].
    + by exists (c :: rest).
    + rewrite step_plain in Hk by done. apply IH in Hk; [|done].
      by rewrite <- app_assoc in Hk.
Qed.

(** The entry below a directory that a path names by its last component. *)
Lemma locate_child (st : state) (p : path) (x : list string) (c : string) :
  stat st p = inr (x, Dir) -> c <> ".." ->
  locate st (child p c) = inr (x ++ [c]).
Proof.
  intros Hs Hc. unfold stat, locate in Hs. unfold locate, child, start_of, PurePath.is_absolute.
  cbn [anchor_of parts]. rewrite walk_snoc.
  unfold start_of, PurePath.is_absolute in Hs.
  destruct (walk _ _ _) as [|y]; [done|].
  destruct (st_fs st !! y) eqn:E; [|done]. injection Hs as -> ->.
  by rewrite step_plain.
Qed.

Lemma names_entry_child (p : path) (c : string) :
  c <> ".." -> names_entry (child p c) = true.
Proof.
  intros Hc. unfold names_entry, child. cbn [parts]. rewrite SetupExtras.last_snoc.
  destruct (parts p ++ [c]) eqn:E; [by destruct (parts p)|].
  by destruct (String.eqb_spec c "..").
Qed.

Lemma join_component (q : path) (c : string) :
  component c -> PurePath.join q (PurePath.of_string c) = child q c.
Proof. intros Hc. by rewrite (SetupExtras.of_string_component c Hc). Qed.

Lemma name_child (p : path) (c : string) : PurePath.name (child p c) = c.
Proof. unfold PurePath.name, child. cbn [parts]. apply SetupExtras.last_snoc. Qed.

(** What [os.rename] of a directory leaves behind, when nothing is in the
    way at the destination. *)
Lemma move_subtree_lookup (sa da : list string) (fs : gmap (list string) node)
    (k : list string) :
  (forall r, fs !! (da ++ r) = None) ->
  move_subtree sa da fs !! k
  = match strip_prefix da k with
    | Some r => fs !! (sa ++ r)
    | None => match strip_prefix sa k with
              | Some _ => None
              | None => fs !! k
              end
    end.
Proof.
  intros Hfree. unfold move_subtree.
  assert (Hda : delete da fs = fs).
  { apply delete_id. specialize (Hfree []). by rewrite app_nil_r in Hfree. }
  rewrite Hda. apply option_eq. intros v. split.
  - intros H. apply elem_of_list_to_map_2 in H.
    apply list_elem_of_fmap in H as ([k0 v0] & [= -> ->] & Hin).
    apply elem_of_map_to_list in Hin. unfold rekey. cbn [fst].
    destruct (strip_prefix sa k0) as [r|] eqn:E.
    + apply strip_prefix_spec in E as ->. by rewrite strip_prefix_app.
    + destruct (strip_prefix da k0) as [r'|] eqn:E'.
      * apply strip_prefix_spec in E' as ->. by rewrite Hfree in Hin.
      * by rewrite E.
  - intros H.
    assert (exists k0, fs !! k0 = Some v /\ rekey sa da k0 = k /\
              forall k1 v1, fs !! k1 = Some v1 -> rekey sa da k1 = k -> v1 = v)
      as (k0 & Hk0 & Hre & Huniq).
    { destruct (strip_prefix da k) as [r|] eqn:E.
      - apply strip_prefix_spec in E as ->. exists (sa ++ r). split; [done|].
        unfold rekey. rewrite strip_prefix_app. split; [done|].
        intros k1 v1 Hk1. destruct (strip_prefix sa k1) as [r1|] eqn:E1.
        + apply strip_prefix_spec in E1 as ->. intros Heq.
          apply app_inv_head in Heq as ->. congruence.
        + intros ->. by rewrite Hfree in Hk1.
      - destruct (strip_prefix sa k) as [r|] eqn:E'; [done|].
        exists k. split; [done|]. unfold rekey. rewrite E'. split; [done|].
        intros k1 v1 Hk1. destruct (strip_prefix sa k1) as [r1|] eqn:E1.
        + intros <-. by rewrite strip_prefix_app in E.
        + intros ->. congruence. }
    apply elem_of_list_to_map_1'.
    + intros y Hy. apply list_elem_of_fmap in Hy as ([k1 v1] & [= Hk1 ->] & Hin).
      apply elem_of_map_to_list in Hin. symmetry. by apply (Huniq k1).
    + apply list_elem_of_fmap. exists (k0, v). split.
      * cbn. by rewrite Hre.
      * by apply elem_of_map_to_list.
Qed.

Lemma strip_prefix_self (a : list string) : strip_prefix a a = Some [].
Proof. apply strip_prefix_spec. by rewrite app_nil_r. Qed.

(** [os.rename] of a regular file, seen through the same lookups. *)
Lemma rename_file_lookup (sa da : list string) (fs : gmap (list string) node)
    (k : list string) :
  fs !! sa = Some File ->
  (forall r, r <> [] -> fs !! (sa ++ r) = None) ->
  (forall r, fs !! (da ++ r) = None) ->
  <[da := File]> (delete sa fs) !! k
  = match strip_prefix da k with
    | Some r => fs !! (sa ++ r)
    | None => match strip_prefix sa k with
              | Some _ => None
              | None => fs !! k
              end
    end.
Proof.
  intros Hsa Hleaf Hfree.
  destruct (strip_prefix da k) as [r|] eqn:E.
  - apply strip_prefix_spec in E as ->. destruct r as [|x r].
    + rewrite !app_nil_r. by rewrite lookup_insert_eq.
    + rewrite lookup_insert_ne.
      2:{ intros H. apply (f_equal length) in H. rewrite length_app in H. cbn in H. lia. }
      rewrite (Hleaf (x :: r)) by done.
      destruct (decide (sa = da ++ x :: r)) as [->|Hne].
      * by rewrite lookup_delete_eq.
      * rewrite lookup_delete_ne by done. apply Hfree.
  - assert (k <> da) as Hkda.
    { intros Heq. by rewrite Heq, strip_prefix_self in E. }
    rewrite lookup_insert_ne by done.
    destruct (strip_prefix sa k) as [r|] eqn:E'.
    + apply strip_prefix_spec in E' as ->. destruct r as [|x r].
      * rewrite app_nil_r. by rewrite lookup_delete_eq.
      * rewrite lookup_delete_ne.
        2:{ intros H. apply (f_equal length) in H. rewrite length_app in H. cbn in H. lia. }
        by apply Hleaf.
    + rewrite lookup_delete_ne; [done|].
      intros Heq. by rewrite Heq, strip_prefix_self in E'.
Qed.

Lemma well_formed_none_below (fs : gmap (list string) node) (k r : list string) :
  well_formed fs -> fs !! k = None -> fs !! (k ++ r) = None.
Proof.
  intros Hwf Hk. destruct r as [|x r]; [by rewrite app_nil_r|].
  destruct (fs !! (k ++ x :: r)) as [n|] eqn:E; [|done].
  rewrite (well_formed_ancestor fs k (x :: r) n Hwf E) in Hk; done.
Qed.

Lemma well_formed_file_leaf (fs : gmap (list string) node) (k r : list string) :
  well_formed fs -> fs !! k = Some File -> r <> [] -> fs !! (k ++ r) = None.
Proof.
  intros Hwf Hk Hr.
  destruct (fs !! (k ++ r)) as [n|] eqn:E; [|done].
  rewrite (well_formed_ancestor fs k r n Hwf E) in Hk; done.
Qed.

Lemma strip_prefix_apart_snoc (a ra : list string) (c : string) :
  apart a ra -> strip_prefix a (ra ++ [c]) = None.
Proof.
  intros [H1 H2]. destruct (strip_prefix a (ra ++ [c])) as [x|] eqn:E; [|done].
  apply strip_prefix_spec in E. destruct x as [|y x _] using rev_ind.
  - rewrite app_nil_r in E. destruct H2. exists [c]. done.
  - rewrite app_assoc in E. apply app_inj_tail in E as [-> _].
    destruct H1. by exists x.
Qed.

Lemma strip_prefix_prefix (a k : list string) :
  is_Some (strip_prefix a k) <-> a `prefix_of` k.
Proof.
  split.
  - intros [r Hr]. apply strip_prefix_spec in Hr. by exists r.
  - intros [r ->]. rewrite strip_prefix_app. by eexists.
Qed.

Lemma strip_prefix_not_prefix (a k : list string) :
  ~ a `prefix_of` k -> strip_prefix a k = None.
Proof.
  intros H. destruct (strip_prefix a k) eqn:E; [|done].
  destruct H. apply strip_prefix_prefix. by eexists.
Qed.

Section MovedBack.

Variables (a ra : list string) (fs1 : gmap (list string) node).
Hypothesis Hapart : apart a ra.

Lemma moved_back_nil (k : list string) : moved_back a ra [] fs1 k = fs1 !! k.
Proof.
  unfold moved_back.
  destruct (strip_prefix ra k) as [[|c r]|]; destruct (strip_prefix a k) as [[|c' r']|];
    try done.
Qed.

Lemma moved_back_outside (D : list string) (k : list string) :
  is_proper_prefix a k = false -> is_proper_prefix ra k = false ->
  moved_back a ra D fs1 k = fs1 !! k.
Proof.
  unfold moved_back, is_proper_prefix. intros Ha Hra.
  destruct (strip_prefix ra k) as [[|c r]|]; try done;
    by destruct (strip_prefix a k) as [[|c' r']|].
Qed.

Lemma moved_back_below_a (D : list string) (c : string) (r : list string) :
  moved_back a ra D fs1 (a ++ c :: r)
  = if bool_decide (c ∈ D) then None else fs1 !! (a ++ c :: r).
Proof.
  unfold moved_back.
  rewrite (strip_prefix_apart ra a) by (by apply apart_sym || (rewrite strip_prefix_app; by eexists)).
  by rewrite strip_prefix_app.
Qed.

Lemma moved_back_below_ra (D : list string) (c : string) (r : list string) :
  moved_back a ra D fs1 (ra ++ c :: r)
  = if bool_decide (c ∈ D) then fs1 !! (a ++ c :: r) else fs1 !! (ra ++ c :: r).
Proof. unfold moved_back. by rewrite strip_prefix_app. Qed.

(** One more entry moved, in terms of the lookups of the file system just
    before. *)
Lemma moved_back_snoc (D : list string) (c : string) (fs : gmap (list string) node)
    (k : list string) :
  c ∉ D ->
  (forall k, fs !! k = moved_back a ra D fs1 k) ->
  match strip_prefix (ra ++ [c]) k with
  | Some r => fs !! ((a ++ [c]) ++ r)
  | None => match strip_prefix (a ++ [c]) k with
            | Some _ => None
            | None => fs !! k
            end
  end = moved_back a ra (D ++ [c]) fs1 k.
Proof.
  intros Hc Hinv. rewrite !strip_prefix_snoc.
  destruct (strip_prefix ra k) as [[|c' r]|] eqn:Era.
  - rewrite (strip_prefix_apart a ra k) by (done || by eexists).
    rewrite Hinv. unfold moved_back. rewrite Era.
    by rewrite (strip_prefix_apart a ra k) by (done || by eexists).
  - rewrite (strip_prefix_apart a ra k) by (done || by eexists).
    apply strip_prefix_spec in Era as ->.
    rewrite moved_back_below_ra.
    destruct (decide (c' = c)) as [->|Hne].
    + rewrite <- app_assoc. cbn. rewrite Hinv, moved_back_below_a.
      rewrite bool_decide_eq_false_2 by done.
      rewrite bool_decide_eq_true_2; [done|].
      apply elem_of_app. right. by apply list_elem_of_singleton.
    + rewrite Hinv, moved_back_below_ra.
      apply (f_equal (fun b : bool => if b then _ else _)).
      apply bool_decide_ext.
        rewrite elem_of_app, list_elem_of_singleton. tauto.
  - destruct (strip_prefix a k) as [[|c' r]|] eqn:Ea.
    + rewrite Hinv. unfold moved_back. by rewrite Era, Ea.
    + apply strip_prefix_spec in Ea as ->. rewrite moved_back_below_a.
      destruct (decide (c' = c)) as [->|Hne].
      * rewrite bool_decide_eq_true_2; [done|].
        apply elem_of_app. right. by apply list_elem_of_singleton.
      * rewrite Hinv, moved_back_below_a.
        apply (f_equal (fun b : bool => if b then _ else _)).
        apply bool_decide_ext.
        rewrite elem_of_app, list_elem_of_singleton. tauto.
    + rewrite Hinv. unfold moved_back. by rewrite Era, Ea.
Qed.

End MovedBack.


Lemma not_proper_prefix_of_prefix (a k : list string) :
  k `prefix_of` a -> is_proper_prefix a k = false.
Proof.
  intros [x Hx]. unfold is_proper_prefix.
  destruct (strip_prefix a k) as [[|c r]|] eqn:E; try done.
  apply strip_prefix_spec in E. subst a. rewrite <- app_assoc in E.
  apply (f_equal length) in E. rewrite !length_app in E. cbn in E. lia.
Qed.

Lemma not_proper_prefix_apart (a ra k : list string) :
  apart a ra -> k `prefix_of` a -> is_proper_prefix ra k = false.
Proof.
  intros [_ H2] Hk. unfold is_proper_prefix.
  destruct (strip_prefix ra k) as [[|c r]|] eqn:E; try done.
  destruct H2. etrans; [|exact Hk]. apply strip_prefix_prefix. by eexists.
Qed.

(** A path without ".." that leads to one of two directories which are
    apart passes through the inside of neither. *)
Lemma plain_clear_of (a ra : list string) (st : state) (p : path) (x : list string)
    (n : node) :
  apart a ra -> plain (parts p) -> stat st p = inr (x, n) -> x = a \/ x = ra ->
  clear_of a ra st p.
Proof.
  intros Hapart Hp Hs Hx. unfold clear_of. apply Forall_forall. intros k Hk.
  apply visited_plain in Hk; [|done].
  unfold stat, locate in Hs. destruct (walk _ _ _) as [|y] eqn:Hw; [done|].
  apply walk_plain in Hw; [|done]. rewrite <- Hw in Hk.
  destruct (st_fs st !! y); [|done]. injection Hs as -> _.
  destruct Hx as [->| ->].
  - split; [by apply not_proper_prefix_of_prefix | by apply (not_proper_prefix_apart a)].
  - split; [|by apply not_proper_prefix_of_prefix].
    apply (not_proper_prefix_apart ra); [by apply apart_sym | done].
Qed.

Section Loop.

Variables (st1 : state) (p q : path) (a ra : list string) (cur : pyval).
Hypothesis Hwf : well_formed (st_fs st1).
Hypothesis Hp : clear_of a ra st1 p.
Hypothesis Hq : clear_of a ra st1 q.
Hypothesis Hsp : stat st1 p = inr (a, Dir).
Hypothesis Hsq : stat st1 q = inr (ra, Dir).
Hypothesis Hapart : apart a ra.
Hypothesis Hcur : st_self st1 !! "_cur_rundir" = Some cur.
Hypothesis Hcq : path_of_value cur = Some q.

Lemma stat_scratch_kept (D : list string) (fs : gmap (list string) node) :
  (forall k, fs !! k = moved_back a ra D (st_fs st1) k) ->
  stat (with_fs fs st1) p = inr (a, Dir).
Proof.
  intros Hinv. apply stat_agree; try done.
  intros k Hk. rewrite Hinv.
  unfold clear_of in Hp. rewrite Forall_forall in Hp. destruct (Hp k Hk).
  by apply moved_back_outside.
Qed.

Lemma stat_rundir_kept (D : list string) (fs : gmap (list string) node) :
  (forall k, fs !! k = moved_back a ra D (st_fs st1) k) ->
  stat (with_fs fs st1) q = inr (ra, Dir).
Proof.
  intros Hinv. apply stat_agree; try done.
  intros k Hk. rewrite Hinv.
  unfold clear_of in Hq. rewrite Forall_forall in Hq. destruct (Hq k Hk).
  by apply moved_back_outside.
Qed.

Lemma scratch_is_not_rundir (c : string) : a ++ [c] <> ra /\ a ++ [c] <> ra ++ [c].
Proof.
  destruct Hapart as [H1 H2]. split.
  - intros <-. destruct H1. by exists [c].
  - intros H. apply app_inj_tail in H as [-> _]. by destruct H1.
Qed.

(** One turn of the loop for an entry whose name is free in the run
    directory. *)
Lemma move_back_step (D : list string) (fs : gmap (list string) node) (c : string)
    (n : node) :
  (forall k, fs !! k = moved_back a ra D (st_fs st1) k) ->
  c ∉ D -> component c ->
  st_fs st1 !! (a ++ [c]) = Some n ->
  st_fs st1 !! (ra ++ [c]) = None ->
  exists fs',
    move_back (child p c) (with_fs fs st1) = (with_fs fs' st1, inr tt) /\
    forall k, fs' !! k = moved_back a ra (D ++ [c]) (st_fs st1) k.
Proof.
  intros Hinv HcD Hcomp Hsrc Hfree.
  pose proof (stat_scratch_kept D fs Hinv) as Hsp'.
  pose proof (stat_rundir_kept D fs Hinv) as Hsq'.
  pose proof (scratch_is_not_rundir c) as [Hne1 Hne2].
  assert (c <> "..") as Hdd by apply Hcomp.
  assert (fs !! (a ++ [c]) = Some n) as Hsrc'.
  { by rewrite Hinv, moved_back_below_a, bool_decide_eq_false_2. }
  assert (forall r, fs !! ((ra ++ [c]) ++ r) = None) as Hfree'.
  { intros r. rewrite <- app_assoc. cbn [app].
    rewrite Hinv, moved_back_below_ra, bool_decide_eq_false_2 by done.
    replace (ra ++ c :: r) with ((ra ++ [c]) ++ r) by (by rewrite <- app_assoc).
    by apply well_formed_none_below. }
  assert (fs !! (ra ++ [c]) = None) as Hda.
  { specialize (Hfree' []). by rewrite app_nil_r in Hfree'. }
  set (st := with_fs fs st1) in *.
  assert (stat st (child p c) = inr (a ++ [c], n)) as Hstat_src.
  { unfold stat. rewrite (locate_child st p a c Hsp' Hdd).
    unfold st. cbn [st_fs with_fs]. by rewrite Hsrc'. }
  assert (locate st (child q c) = inr (ra ++ [c])) as Hloc_dst.
  { by apply locate_child. }
  assert (exists fs',
            os_rename (child p c) (child q c) st = (with_fs fs' st1, inr tt) /\
            forall k, fs' !! k = moved_back a ra (D ++ [c]) (st_fs st1) k)
    as (fs' & Hren & Hinv').
  { unfold os_rename. cbv zeta. rewrite !names_entry_child by done. cbn [negb andb].
    rewrite Hstat_src, Hloc_dst. rewrite decide_False by done.
    unfold st. cbn [st_fs with_fs]. destruct n.
    - rewrite Hda. eexists. split; [reflexivity|]. intros k.
      rewrite rename_file_lookup; try done.
      + by apply moved_back_snoc.
      + intros r Hr. rewrite Hinv. destruct r as [|x r]; [done|].
        rewrite <- app_assoc. cbn [app].
        rewrite moved_back_below_a, bool_decide_eq_false_2 by done.
        replace (a ++ c :: x :: r) with ((a ++ [c]) ++ x :: r) by (by rewrite <- app_assoc).
        by apply well_formed_file_leaf.
    - unfold is_proper_prefix. rewrite strip_prefix_snoc.
      rewrite (strip_prefix_apart_snoc a ra c Hapart), Hda.
      eexists. split; [reflexivity|]. intros k.
      rewrite move_subtree_lookup by done. by apply moved_back_snoc. }
  exists fs'. split; [|exact Hinv'].
  unfold move_back.
  rewrite (bind_ok _ _ _ _ _ (getattr_ok _ _ st Hcur)).
  rewrite (bind_ok _ _ _ _ _ (Path_of_ok _ _ st Hcq)).
  unfold shutil_move.
  rewrite (bind_ok (shutil_move (child p c) q) _ st (with_fs fs' st1) (child q c));
    [reflexivity|].
  unfold shutil_move.
  rewrite (bind_ok (is_dir q) _ st st true) by (unfold is_dir; by rewrite Hsq').
  rewrite (bind_ok (samefile _ _) _ st st false).
  2:{ unfold samefile. rewrite Hstat_src, Hsq'. by rewrite bool_decide_eq_false_2. }
  rewrite name_child, (join_component q c Hcomp).
  rewrite (bind_ok (exists_ _) _ st st false).
  2:{ unfold exists_, stat. rewrite Hloc_dst. unfold st. cbn [st_fs with_fs]. by rewrite Hda. }
  by rewrite (bind_ok _ _ _ _ _ Hren).
Qed.


(** The whole loop over entries whose names are free in the run directory. *)
Lemma move_back_all (todo : list string) :
  forall (D : list string) (fs : gmap (list string) node),
    (forall k, fs !! k = moved_back a ra D (st_fs st1) k) ->
    NoDup (D ++ todo) ->
    Forall component todo ->
    Forall (fun c => is_Some (st_fs st1 !! (a ++ [c]))) todo ->
    Forall (fun c => st_fs st1 !! (ra ++ [c]) = None) todo ->
    exists fs',
      for_each (map (child p) todo) move_back (with_fs fs st1) = (with_fs fs' st1, inr tt) /\
      forall k, fs' !! k = moved_back a ra (D ++ todo) (st_fs st1) k.
Proof.
  induction todo as [|c todo IH]; intros D fs Hinv Hnd Hcomp Hsrc Hfree.
  - exists fs. rewrite app_nil_r. split; [by destruct st1|done].
  - apply Forall_cons in Hcomp as [Hc Hcomp].
    apply Forall_cons in Hsrc as [[n Hn] Hsrc].
    apply Forall_cons in Hfree as [Hf Hfree].
    assert (c ∉ D) as HcD.
    { apply NoDup_app in Hnd as (_ & Hdisj & _). intros Hin.
      apply (Hdisj c Hin). by left. }
    destruct (move_back_step D fs c n Hinv HcD Hc Hn Hf) as (fs2 & Hstep & Hinv2).
    destruct (IH (D ++ [c]) fs2 Hinv2) as (fs' & Hloop & Hinv'); try done.
    { by rewrite <- app_assoc. }
    exists fs'. split.
    + cbn [map for_each]. by rewrite (bind_ok _ _ _ _ _ Hstep).
    + intros k. rewrite Hinv'. by rewrite <- app_assoc.
Qed.

End Loop.

Lemma bind_cong {A B : Type} (m1 m2 : M A) (f : A -> M B) (st : state) :
  m1 st = m2 st -> (m1 ≫= f) st = (m2 ≫= f) st.
Proof. unfold mbind, M_bind. by intros ->. Qed.

Lemma with_fs_same (st : state) : with_fs (st_fs st) st = st.
Proof. by destruct st. Qed.

Section TeardownWithScratch.

Variable utils_clean_rundir : pyval -> pyval -> pyval -> bool -> M unit.

Hypothesis utils_keeps_self :
  forall rundir keep_files default_keep_files succeeded,
    keeps_self (utils_clean_rundir rundir keep_files default_keep_files succeeded).

(** With a scratch directory, and once the keep policy has returned, the
    teardown is the loop over the entries of the scratch directory followed
    by the final test. *)
Lemma clean_rundir_after_policy (default_keep_files : pyval) (succeeded : bool)
    (st st1 : state) (d kf sd : pyval) (p : path) (a : list string) :
  st_self st !! "directory" = Some d ->
  path_of_value d = Some p ->
  st_self st !! "_wfl_keep_files" = Some kf ->
  st_self st !! "_wfl_scratchdir" = Some sd ->
  sd <> VNone ->
  utils_clean_rundir d kf default_keep_files succeeded st = (st1, inr tt) ->
  stat st1 p = inr (a, Dir) ->
  clean_rundir utils_clean_rundir default_keep_files succeeded st
  = (_ ← (_ ← for_each (map (child p) (children (st_fs st1) a)) move_back;
          remove_or_warn);
     mret VNone) st1.
Proof.
  intros Hd Hp Hkf Hsd Hne Hutils Hstat.
  pose proof (utils_keeps_self _ _ _ _ _ _ _ Hutils) as Hself.
  unfold clean_rundir.
  rewrite (bind_ok _ _ _ _ _ (getattr_ok _ _ _ Hd)).
  rewrite (bind_ok _ _ _ _ _ (getattr_ok _ _ _ Hkf)).
  rewrite (bind_ok _ _ _ _ _ Hutils).
  rewrite (bind_ok _ _ _ st1 _ (getattr_ok _ sd _ ltac:(by rewrite Hself))).
  rewrite decide_True by done. apply bind_cong.
  rewrite (bind_ok _ _ _ st1 _ (getattr_ok _ d _ ltac:(by rewrite Hself))).
  rewrite (bind_ok _ _ _ _ _ (Path_of_ok _ _ _ Hp)).
  rewrite (bind_ok (Path_glob_star p) _ st1 st1 (map (child p) (children (st_fs st1) a)));
    [reflexivity|].
  unfold Path_glob_star. by rewrite Hstat.
Qed.

(** The teardown with a scratch directory moves the results back. Assume
    that the keep policy has returned, in a state [st1] with a well-formed
    file system; that [self.directory] and [self._cur_rundir] are strings
    or paths which name directories there, the scratch directory at [a] and
    the run directory at [ra]; that neither directory is the other or lies
    in the other; that the resolution of neither path passes through the
    inside of one of the two directories (which holds for paths without
    ".."); that the entries of the scratch directory have names that are
    path components; and that none of these names is taken in the run
    directory. Then the method returns [None]: every entry that the keep
    policy left is afterwards in the run directory under its name, with all
    that was below it; nothing is left in the scratch directory; every other
    path is as the keep policy left it; and the last thing that happened is
    the warning that the scratch directory "is not empty", with
    [self.directory] as it was. *)
Theorem clean_rundir_moves_back (default_keep_files : pyval) (succeeded : bool)
    (st st1 : state) (d kf sd cur : pyval) (p q : path) (a ra : list string) :
  st_self st !! "directory" = Some d ->
  path_of_value d = Some p ->
  st_self st !! "_wfl_keep_files" = Some kf ->
  st_self st !! "_wfl_scratchdir" = Some sd ->
  sd <> VNone ->
  st_self st !! "_cur_rundir" = Some cur ->
  path_of_value cur = Some q ->
  utils_clean_rundir d kf default_keep_files succeeded st = (st1, inr tt) ->
  well_formed (st_fs st1) ->
  clear_of a ra st1 p -> clear_of a ra st1 q ->
  stat st1 p = inr (a, Dir) ->
  stat st1 q = inr (ra, Dir) ->
  apart a ra ->
  Forall component (children (st_fs st1) a) ->
  Forall (fun c => st_fs st1 !! (ra ++ [c]) = None) (children (st_fs st1) a) ->
  exists fs',
    clean_rundir utils_clean_rundir default_keep_files succeeded st
    = (with_log (st_log st1 ++ [EvWarn ("scratchdir " +:+ py_str d
                                        +:+ " is not empty, not deleting.")])
         (with_fs fs' st1),
       inr VNone) /\
    (forall c r, c ∈ children (st_fs st1) a ->
                 fs' !! (ra ++ c :: r) = st_fs st1 !! (a ++ c :: r)) /\
    (forall c r, fs' !! (a ++ c :: r) = None) /\
    (forall k, (forall c, ~ (a ++ [c]) `prefix_of` k) ->
               (forall c, c ∈ children (st_fs st1) a -> ~ (ra ++ [c]) `prefix_of` k) ->
               fs' !! k = st_fs st1 !! k).
Proof.
  intros Hd Hp Hkf Hsd Hne Hcur Hq Hutils Hwf Hpp Hpq Hsp Hsq Hapart Hcomp Hfree.
  pose proof (utils_keeps_self _ _ _ _ _ _ _ Hutils) as Hself.
  assert (st_self st1 !! "_cur_rundir" = Some cur) as Hcur1 by (by rewrite Hself).
  assert (st_self st1 !! "directory" = Some d) as Hd1 by (by rewrite Hself).
  destruct (move_back_all st1 p q a ra cur Hwf Hpp Hpq Hsp Hsq Hapart Hcur1 Hq
              (children (st_fs st1) a) [] (st_fs st1))
    as (fs' & Hloop & Hinv); try done.
  { intros k. by rewrite moved_back_nil. }
  { apply NoDup_children. }
  { apply Forall_forall. intros c Hc. by apply elem_of_children. }
  rewrite with_fs_same in Hloop. cbn [app] in Hinv.
  assert (forall c r, fs' !! (a ++ c :: r) = None) as Hgone.
  { intros c r. rewrite Hinv, moved_back_below_a by done. case_bool_decide; [done|].
    replace (a ++ c :: r) with ((a ++ [c]) ++ r) by (by rewrite <- app_assoc).
    apply well_formed_none_below; [done|].
    apply eq_None_not_Some. intros Hs. by apply elem_of_children in Hs. }
  exists fs'. split; [|split_and!].
  - rewrite (clean_rundir_after_policy default_keep_files succeeded st st1 d kf sd p a)
      by done.
    set (st2 := with_fs fs' st1) in *.
    rewrite (bind_ok _ _ _ (with_log (st_log st1 ++ [EvWarn ("scratchdir " +:+ py_str d
                                        +:+ " is not empty, not deleting.")]) st2) tt);
      [reflexivity|].
    rewrite (bind_ok _ _ _ _ _ Hloop).
    unfold remove_or_warn.
    rewrite (bind_ok _ _ _ _ _ (getattr_ok _ d st2 Hd1)).
    rewrite (bind_ok _ _ _ _ _ (Path_of_ok _ _ _ Hp)).
    rewrite (bind_ok (Path_iterdir p) _ st2 st2 []).
    2:{ unfold Path_iterdir. unfold st2.
        rewrite (stat_scratch_kept st1 p a ra Hpp Hsp _ fs' Hinv).
        cbn [st_fs with_fs]. rewrite children_nil; [done|].
        intros c. apply Hgone. }
    rewrite decide_True by done.
    by rewrite (bind_ok _ _ _ _ _ (getattr_ok _ d st2 Hd1)).
  - intros c r Hc. by rewrite Hinv, moved_back_below_ra, bool_decide_eq_true_2.
  - exact Hgone.
  - intros k Ha Hra. rewrite Hinv. unfold moved_back.
    destruct (strip_prefix ra k) as [[|c r]|] eqn:Era.
    + destruct (strip_prefix a k) as [[|c' r']|] eqn:Ea; try done.
      apply strip_prefix_spec in Ea. destruct (Ha c'). exists r'. by rewrite <- app_assoc.
    + apply strip_prefix_spec in Era. case_bool_decide as Hin; [|done].
      destruct (Hra c Hin). exists r. by rewrite <- app_assoc.
    + destruct (strip_prefix a k) as [[|c' r']|] eqn:Ea; try done.
      apply strip_prefix_spec in Ea. destruct (Ha c'). exists r'. by rewrite <- app_assoc.
Qed.


(** Without a scratch directory the teardown is the call of the keep policy
    on [self.directory] and nothing else: the state is the one that the
    policy leaves, an exception of the policy is the exception of the
    method, and otherwise the method returns [None]. *)
Theorem clean_rundir_without_scratch (default_keep_files : pyval) (succeeded : bool)
    (st st1 : state) (d kf : pyval) (r : result unit) :
  st_self st !! "directory" = Some d ->
  st_self st !! "_wfl_keep_files" = Some kf ->
  st_self st !! "_wfl_scratchdir" = Some VNone ->
  utils_clean_rundir d kf default_keep_files succeeded st = (st1, r) ->
  clean_rundir utils_clean_rundir default_keep_files succeeded st
  = (st1, match r with inl e => inl e | inr _ => inr VNone end).
Proof.
  intros Hd Hkf Hsd Hutils.
  pose proof (utils_keeps_self _ _ _ _ _ _ _ Hutils) as Hself.
  unfold clean_rundir.
  rewrite (bind_ok _ _ _ _ _ (getattr_ok _ _ _ Hd)).
  rewrite (bind_ok _ _ _ _ _ (getattr_ok _ _ _ Hkf)).
  destruct r as [e|[]].
  - by rewrite (bind_err _ _ _ _ _ Hutils).
  - rewrite (bind_ok _ _ _ _ _ Hutils).
    rewrite (bind_ok _ _ _ st1 _ (getattr_ok _ VNone _ ltac:(by rewrite Hself))).
    by rewrite decide_False by (by intros []).
Qed.

End TeardownWithScratch.

(** A run directory that is named with a "..": [../w/sub/run_aaaa], seen
    from [/w]. *)
Lemma clean_rundir_moves_back_witness :
  exists st',
    clean_rundir KeepPolicy.utils_clean_rundir VNone true Scenario2.st_calculated_updir
    = (st', inr VNone) /\
    st_fs st' !! ["w"; "sub"; "run_aaaa"; "save"; "wfc.dat"] = Some File /\
    st_fs st' !! ["scratch"; "w_sub_run_aaaa"; "save"; "wfc.dat"] = None.
Proof.
  destruct (clean_rundir_moves_back KeepPolicy.utils_clean_rundir keeps_self_policy
              VNone true Scenario2.st_calculated_updir
              (fst (KeepPolicy.utils_clean_rundir
                      (VPath (mkPath Root ["scratch"; "w_sub_run_aaaa"]))
                      (VList ["*.log"; "save"]) VNone true Scenario2.st_calculated_updir))
              (VPath (mkPath Root ["scratch"; "w_sub_run_aaaa"]))
              (VList ["*.log"; "save"])
              (VPath (mkPath Root ["scratch"]))
              (VPath (mkPath Rel [".."; "w"; "sub"; "run_aaaa"]))
              (mkPath Root ["scratch"; "w_sub_run_aaaa"])
              (mkPath Rel [".."; "w"; "sub"; "run_aaaa"])
              ["scratch"; "w_sub_run_aaaa"] ["w"; "sub"; "run_aaaa"])
    as (fs' & Hrun & Hmoved & Hgone & _).
  - vm_compute. reflexivity.
  - reflexivity.
  - vm_compute. reflexivity.
  - vm_compute. reflexivity.
  - discriminate.
  - vm_compute. reflexivity.
  - reflexivity.
  - vm_compute. reflexivity.
  - apply (bool_decide_unpack _). by vm_compute.
  - unfold clear_of. cbn. repeat constructor.
  - unfold clear_of. cbn. repeat constructor.
  - vm_compute. reflexivity.
  - vm_compute. reflexivity.
  - split; apply (bool_decide_unpack _); by vm_compute.
  - assert (children (st_fs (fst (KeepPolicy.utils_clean_rundir
                      (VPath (mkPath Root ["scratch"; "w_sub_run_aaaa"]))
                      (VList ["*.log"; "save"]) VNone true Scenario2.st_calculated_updir)))
              ["scratch"; "w_sub_run_aaaa"] = ["out.log"; "save"]) as ->
      by (vm_compute; reflexivity).
    repeat constructor; discriminate.
  - assert (children (st_fs (fst (KeepPolicy.utils_clean_rundir
                      (VPath (mkPath Root ["scratch"; "w_sub_run_aaaa"]))
                      (VList ["*.log"; "save"]) VNone true Scenario2.st_calculated_updir)))
              ["scratch"; "w_sub_run_aaaa"] = ["out.log"; "save"]) as ->
      by (vm_compute; reflexivity).
    repeat constructor; vm_compute; reflexivity.
  - eexists. split; [exact Hrun|]. cbn [st_fs with_log with_fs]. split.
    + etrans; [apply (Hmoved "save" ["wfc.dat"]) | vm_compute; reflexivity].
      apply elem_of_children. vm_compute. by eexists.
    + apply (Hgone "save" ["wfc.dat"]).
Defined.


Lemma clean_rundir_without_scratch_witness :
  exists st',
    clean_rundir KeepPolicy.utils_clean_rundir VNone true Scenario2.st_calculated_plain
    = (st', inr VNone) /\
    st_fs st' !! ["w"; "sub"; "run_aaaa"; "out.log"] = Some File /\
    st_fs st' !! ["w"; "sub"; "run_aaaa"; "pw.in"] = None /\
    st_log st' = [EvSuperInit ∅].
Proof.
  eexists. split.
  - apply (clean_rundir_without_scratch KeepPolicy.utils_clean_rundir keeps_self_policy
             VNone true Scenario2.st_calculated_plain
             (fst (KeepPolicy.utils_clean_rundir
                     (VPath (mkPath Rel ["sub"; "run_aaaa"]))
                     (VList ["*.log"; "save"]) VNone true Scenario2.st_calculated_plain))
             (VPath (mkPath Rel ["sub"; "run_aaaa"]))
             (VList ["*.log"; "save"]) (inr tt)).
    + vm_compute. reflexivity.
    + vm_compute. reflexivity.
    + vm_compute. reflexivity.
    + vm_compute. reflexivity.
  - vm_compute. by split_and!.
Defined.


End CleanExtras.
(** ** The option decorators taken together *)

Module CliExtras.
Import CliSurface.

(** Two different decorators of the module, applied to one command, attach
    two options (the one applied last comes first), and these two options
    declare a name in common exactly when the decorators are [inputs] and
    [extra_info], in either order; the shared name is then the short flag
    "-i". *)
Theorem decorators_share_only_short_i (d1 d2 : decorator) (f : command) (s : string) :
  d1 <> d2 ->
  exists o1 o2,
    click_params (decorate d1 (decorate d2 f)) = o1 :: o2 :: click_params f /\
    (s ∈ param_decls o1 /\ s ∈ param_decls o2 <->
     s = "-i" /\ (d1 = Inputs /\ d2 = ExtraInfo \/ d1 = ExtraInfo /\ d2 = Inputs)).
Proof.
  intros Hne.
  destruct d1, d2; try done; (eexists; eexists; split; [reflexivity|]);
    rewrite <- list_elem_of_intersection;
    match goal with
    | |- context [list_intersection ?l ?k] =>
        let r := eval vm_compute in (list_intersection l k) in
        change (list_intersection l k) with r
    end;
    rewrite ?elem_of_nil, ?list_elem_of_singleton;
    (split; [intros H | intros [H [[? ?]|[? ?]]]]); try done;
    (split; [done|]); by (left + right).
Qed.

Lemma decorators_share_only_short_i_witness :
  exists o1 o2,
    click_params (inputs (extra_info (mkCommand []))) = [o1; o2] /\
    "-i" ∈ param_decls o1 /\ "-i" ∈ param_decls o2.
Proof.
  destruct (decorators_share_only_short_i Inputs ExtraInfo (mkCommand []) "-i")
    as (o1 & o2 & Hparams & Hshare); [discriminate|].
  exists o1, o2. split; [exact Hparams|].
  apply Hshare. split; [reflexivity|]. left. by split.
Defined.

End CliExtras.
